(** * Trinity wallet: the Receive screen and the market-data actions

    A shallow embedding of two pieces of the wallet front end:

    - the [Receive] React component (address scramble/reveal animation,
      address generation and validation), and
    - the market-data Redux action creators ([setMarketData],
      [getChartData]).

    JavaScript values are modelled as the code uses them: the scramble
    buffer is an array of integers ([list Z]), the frame counter is a number
    that is [undefined] until the first reveal starts, calls to collaborators
    (alerts, navigation, the seed store, the animation-frame scheduler, the
    price API, the Redux dispatcher) are recorded as effects. *)

From Stdlib Require Import ZArith Lia Ascii String SpecFloat DecimalString.
From stdpp Require Import base tactics option list strings numbers gmap.

Open Scope Z_scope.

(** ** Results of calls that may throw *)

Inductive completion (A : Type) : Type :=
  | Returns (a : A)
  | Throws (err : string).
Arguments Returns {A} a.
Arguments Throws {A} err.

(** * The Receive component *)

Module Receive.

Section Component.

(** [ADDRESS_LENGTH] is imported from [libs/iota/utils]; it is left
    abstract. *)
Variable ADDRESS_LENGTH : nat.

(** The component instance: React state ([message], [scramble]) and the
    instance field [frame].  [frame] is not initialised by the class, so it
    is [undefined] until [componentWillReceiveProps] or
    [componentWillUnmount] assigns it; [None] stands for a counter that is
    not a number ([undefined], or the [NaN] that [undefined++] yields). *)
Record component : Type := Component {
  message : string;
  scramble : list Z;
  frame : option Z;
}.

Definition set_scramble (s : list Z) (c : component) : component :=
  {| message := message c; scramble := s; frame := frame c |}.

Definition set_frame (f : option Z) (c : component) : component :=
  {| message := message c; scramble := scramble c; frame := f |}.

Definition set_message (m : string) (c : component) : component :=
  {| message := m; scramble := scramble c; frame := frame c |}.

(** [state = { message: '', scramble: new Array(ADDRESS_LENGTH).fill(0) }] *)
Definition initial : component :=
  {| message := ""; scramble := replicate ADDRESS_LENGTH 0; frame := None |}.

(** Modelled from the spec: [randomBytes] of [libs/crypto] is not among the
    sources.  The spec has the buffer "(re)created with random magnitudes",
    "one byte per address character"; the entropy is an explicit stream of
    raw draws, each reduced to a byte. *)
Definition randomBytes (entropy : nat → Z) (size : nat) : list Z :=
  (λ i, entropy i `mod` 256) <$> seq 0 size.

(** JavaScript comparisons on the counter: a comparison with [undefined] or
    [NaN] is false. *)
Definition js_lt (x : option Z) (n : Z) : bool :=
  match x with Some v => bool_decide (v < n) | None => false end.

Definition js_gt (x : option Z) (n : Z) : bool :=
  match x with Some v => bool_decide (v > n) | None => false end.

(** [this.frame++] *)
Definition js_incr (x : option Z) : option Z := (λ v, v + 1) <$> x.

(** The body of the [for] loop of [unscramble], with its two accumulators:
    [sum += scramble[i]; scrambleNew.push(Math.max(0, scramble[i] - 15))]. *)
Fixpoint decay_loop (rest : list Z) (scrambleNew : list Z) (sum : Z)
  : list Z * Z :=
  match rest with
  | [] => (scrambleNew, sum)
  | e :: rest' => decay_loop rest' (scrambleNew ++ [Z.max 0 (e - 15)]) (sum + e)
  end.

(** [unscramble()].  The result carries the component after the call and
    whether [requestAnimationFrame] was called with [unscramble] again. *)
Definition unscramble (c : component) : component * bool :=
  if js_lt (frame c) 0 then (c, false)
  else
    let '(c1, sum) :=
      if js_gt (frame c) 3 then
        let '(scrambleNew, sum) := decay_loop (scramble c) [] 0 in
        (set_frame (Some 0) (set_scramble scrambleNew c), sum)
      else (c, -1) in
    let c2 := set_frame (js_incr (frame c1)) c1 in
    (c2, negb (bool_decide (sum = 0))).

(** The sum that the termination check of [unscramble] reads on a decay
    tick. *)
Definition accumulated_sum (c : component) : Z :=
  snd (decay_loop (scramble c) [] 0).

(** [componentWillUnmount()] *)
Definition componentWillUnmount (c : component) : component :=
  set_frame (Some (-1)) c.

(** [componentWillReceiveProps(nextProps)], on the two props it reads.
    [setState] inside a lifecycle method is batched: the synchronous
    [this.unscramble()] still runs on the previous state, and the new buffer
    is in place when the method has returned. *)
Definition componentWillReceiveProps
    (isGeneratingReceiveAddress nextIsGeneratingReceiveAddress : bool)
    (entropy : nat → Z) (c : component) : component * bool :=
  if isGeneratingReceiveAddress && negb nextIsGeneratingReceiveAddress then
    let c1 := set_frame (Some 0) c in
    let pending := randomBytes entropy ADDRESS_LENGTH in
    let '(c2, requested) := unscramble c1 in
    (set_scramble pending c2, requested)
  else (c, false).

(** The display-refresh scheduler: [pending] counts the callbacks registered
    with [requestAnimationFrame].  One display frame runs every callback
    that was registered before it; the callbacks they register wait for the
    next frame. *)
Fixpoint run_callbacks (n : nat) (c : component) (requested : nat)
  : component * nat :=
  match n with
  | O => (c, requested)
  | S n' =>
      let '(c', again) := unscramble c in
      run_callbacks n' c' (if again then S requested else requested)
  end.

Definition display_frame (s : component * nat) : component * nat :=
  run_callbacks (snd s) (fst s) 0.

Fixpoint display_frames (k : nat) (s : component * nat) : component * nat :=
  match k with
  | O => s
  | S k' => display_frames k' (display_frame s)
  end.

(** [start(buffer)] of the spec: a new address has arrived. *)
Definition start (entropy : nat → Z) (c : component) : component * nat :=
  let '(c', requested) := componentWillReceiveProps true false entropy c in
  (c', if requested then 1%nat else 0%nat).

(** *** Props and collaborators *)

Record notification : Type := Notification {
  title : string;
  content : string;
}.

(** What [seedStore.validateAddress] resolves to: a boolean, nothing
    ([null] or [undefined]), or an object that may carry a notification. *)
Inductive validity : Type :=
  | VBoolean (b : bool)
  | VNothing
  | VObject (note : option notification).

(** [!valid] is decided by the truthiness of the value: objects are
    truthy. *)
Definition truthy (v : validity) : bool :=
  match v with
  | VBoolean b => b
  | VNothing => false
  | VObject _ => true
  end.

(** [valid.notification], read on a truthy value. *)
Definition get_notification (v : validity) : option notification :=
  match v with
  | VObject note => note
  | _ => None
  end.

Record metaInfo : Type := MetaInfo {
  type : string;
}.

(** [account.addresses] is an object keyed by address: the field holds the
    keys that [Object.keys] lists, or [None] for an account without it. *)
Record accountInfo : Type := AccountInfo {
  addresses : option (list string);
}.

Record seedStore : Type := SeedStoreInstance {
  validateAddress : Z → completion validity;
}.

(** The props read by the handlers; [password] is an opaque object, kept
    as the text that identifies it. *)
Record props : Type := Props {
  password : string;
  accountName : string;
  accountMeta : metaInfo;
  account : accountInfo;
  receiveAddress : string;
  isSyncing : bool;
  isTransitioning : bool;
  isGeneratingReceiveAddress : bool;
  t : string → string;
}.

Inductive logged : Type :=
  | LogValidity (v : validity)
  | LogError (err : string).

(** Calls that leave the component. *)
Inductive effect : Type :=
  | GenerateAlert (category heading body : string)
  | NewSeedStore (kind : string) (pass name : string)
  | GenerateNewAddress (store : seedStore) (name : string) (a : accountInfo)
  | ValidateAddress (index : Z)
  | HistoryPush (path : string)
  | ConsoleLog (what : logged).

Definition is_alert (e : effect) : bool :=
  match e with GenerateAlert _ _ _ => true | _ => false end.

Definition is_navigation (e : effect) : bool :=
  match e with HistoryPush _ => true | _ => false end.

Definition is_construction (e : effect) : bool :=
  match e with NewSeedStore _ _ _ => true | _ => false end.

Definition is_generation (e : effect) : bool :=
  match e with GenerateNewAddress _ _ _ => true | _ => false end.

(** [new SeedStore[accountMeta.type](password, accountName, accountMeta)]:
    the constructor table of [libs/SeedStore]. *)
Variable SeedStore : string → string → string → metaInfo → completion seedStore.

(** [onGeneratePress]: the component after the call, the calls made, and
    how the [async] function completes. *)
Definition onGeneratePress (p : props) (c : component)
  : component * list effect * completion unit :=
  if isSyncing p || isTransitioning p then
    (c, [GenerateAlert "error" (t p "global:pleaseWait")
                       (t p "global:pleaseWaitExplanation")], Returns ())
  else
    let construction := NewSeedStore (type (accountMeta p)) (password p) (accountName p) in
    match SeedStore (type (accountMeta p)) (password p) (accountName p) (accountMeta p) with
    | Throws err => (c, [construction], Throws err)
    | Returns store =>
        (c, [construction; GenerateNewAddress store (accountName p) (account p)],
         Returns ())
    end.

(** [Object.keys(account.addresses).length - 1]; [Object.keys(undefined)]
    throws. *)
Definition last_address_index (a : accountInfo) : completion Z :=
  match addresses a with
  | Some keys => Returns (Z.of_nat (length keys) - 1)
  | None => Throws "TypeError"
  end.

(** The [try] block of [validateAdress]: the calls made inside it, and
    whether it ran to its end or threw. *)
Definition validate_try (p : props) (store : seedStore)
  : list effect * completion unit :=
  match last_address_index (account p) with
  | Throws err => ([], Throws err)
  | Returns index =>
      match validateAddress store index with
      | Throws err => ([ValidateAddress index], Throws err)
      | Returns valid =>
          let seen := [ValidateAddress index; ConsoleLog (LogValidity valid)] in
          if negb (truthy valid) then
            (seen ++ [HistoryPush "/wallet/"], Returns ())
          else
            match get_notification valid with
            | Some note =>
                (seen ++ [GenerateAlert "success" (t p (title note))
                                        (t p (content note))], Returns ())
            | None => (seen, Returns ())
            end
      end
  end.

(** [validateAdress]: the seed store is constructed outside the [try]; the
    [catch] block logs the error and navigates. *)
Definition validateAdress (p : props) (c : component)
  : component * list effect * completion unit :=
  let construction := NewSeedStore (type (accountMeta p)) (password p) (accountName p) in
  match SeedStore (type (accountMeta p)) (password p) (accountName p) (accountMeta p) with
  | Throws err => (c, [construction], Throws err)
  | Returns store =>
      match validate_try p store with
      | (calls, Returns _) => (c, construction :: calls, Returns ())
      | (calls, Throws err) =>
          (c, construction :: calls
                ++ [ConsoleLog (LogError err); HistoryPush "/wallet/"],
           Returns ())
      end
  end.

(** *** Rendering *)

(** [byteToChar] is imported from [libs/helpers]; it is left abstract. *)
Variable byteToChar : Z → string.

(** [receiveAddress.split('')] *)
Fixpoint split_chars (s : string) : list string :=
  match s with
  | EmptyString => []
  | String a rest => String a EmptyString :: split_chars rest
  end.

(** [scrambleChar || char]: [null] and the empty string are falsy. *)
Definition js_or (scrambleChar : option string) (char : string) : string :=
  match scrambleChar with
  | Some EmptyString | None => char
  | Some s => s
  end.

(** [scramble[index] > 0 ? byteToChar(scramble[index]) : null]; an index
    past the end of the array reads [undefined], which is not [> 0]. *)
Definition scrambleChar_at (scr : list Z) (index : nat) : option string :=
  match scr !! index with
  | Some m => if bool_decide (m > 0) then Some (byteToChar m) else None
  | None => None
  end.

(** The fragments rendered inside the clipboard paragraph. *)
Definition render_address (address : string) (scr : list Z) : list string :=
  imap (λ index char, js_or (scrambleChar_at scr index) char)
       (split_chars address).

(** *** The life of a mounted component *)

Inductive event : Type :=
  | ReceiveProps (generating nextGenerating : bool) (entropy : nat → Z)
  | AnimationFrame
  | MessageChange (value : string)
  | Unmount.

Definition handle (s : component * nat) (ev : event) : component * nat :=
  match ev with
  | ReceiveProps g g' entropy =>
      let '(c, requested) := componentWillReceiveProps g g' entropy (fst s) in
      (c, if requested then S (snd s) else snd s)
  | AnimationFrame => display_frame s
  | MessageChange value => (set_message value (fst s), snd s)
  | Unmount => (componentWillUnmount (fst s), snd s)
  end.

Definition run_events (evs : list event) (s : component * nat) : component * nat :=
  foldl handle s evs.

End Component.

(** *** Vocabulary of the statements *)

(** One decay step of a magnitude, and the sum of a buffer. *)
Definition decayed (e : Z) : Z := Z.max 0 (e - 15).

Definition total (l : list Z) : Z := foldr Z.add 0 l.

(** [n] successive calls of [unscramble], each one made whether or not the
    previous one asked for it: the component after them, and whether any of
    them requested a frame. *)
Fixpoint unscramble_calls (n : nat) (c : component) : component * bool :=
  match n with
  | O => (c, false)
  | S n' =>
      let '(c', again) := unscramble c in
      let '(c'', later) := unscramble_calls n' c' in
      (c'', again || later)
  end.

(** The alerts and the navigations among the calls of a run. *)
Definition alerts (calls : list effect) : list effect := filter is_alert calls.

Definition navigations (calls : list effect) : list effect :=
  filter is_navigation calls.

(** The three outcomes of [validateAdress], by what [validateAddress]
    answered: [false], a value with a notification, or an exception. *)
Definition one_of_three_outcomes (p : props) (answer : completion validity)
    (calls : list effect) : Prop :=
  (answer = Returns (VBoolean false)
   ∧ navigations calls = [HistoryPush "/wallet/"] ∧ alerts calls = [])
  ∨ (∃ note, answer = Returns (VObject (Some note))
       ∧ alerts calls = [GenerateAlert "success" (t p (title note))
                                       (t p (content note))]
       ∧ navigations calls = [])
  ∨ (∃ err, answer = Throws err
       ∧ navigations calls = [HistoryPush "/wallet/"] ∧ alerts calls = []).

(** *** Samples *)

(** A seed store whose [validateAddress] settles as [answer], and a
    constructor table that builds it for every account type. *)
Definition sample_store (answer : completion validity) : seedStore :=
  {| validateAddress := λ _, answer |}.

Definition sample_SeedStore (answer : completion validity)
  : string → string → string → metaInfo → completion seedStore :=
  λ _ _ _ _, Returns (sample_store answer).

Definition sample_props (syncing transitioning : bool) : props :=
  {| password := "secret";
     accountName := "main";
     accountMeta := {| type := "keychain" |};
     account := {| addresses := Some ["AAA"; "BBB"] |};
     receiveAddress := "BBB";
     isSyncing := syncing;
     isTransitioning := transitioning;
     isGeneratingReceiveAddress := false;
     t := λ key, key |}.

Definition sample_component : component :=
  {| message := ""; scramble := [0; 0; 0]; frame := None |}.

(** *** Measuring what is left of a reveal *)

(** The calls of [unscramble] it takes a counter at [f] to reach its next
    decay tick, that call included. *)
Definition calls_to_tick (f : Z) : nat :=
  if bool_decide (3 < f) then 1%nat else Z.to_nat (5 - f).

(** A bound on the calls left before every registered callback has retired,
    for a buffer with magnitudes up to [15 * n] and [live] callbacks: [n]
    ticks may find a positive sum, and each callback retires on a tick of
    its own. *)
Definition work (f : Z) (n live : nat) : nat :=
  match live with
  | O => O
  | S rest => (calls_to_tick f + 4 * (n + rest))%nat
  end.

(** [componentDidMount()] *)
Definition componentDidMount := validateAdress.

(** The calls to the seed store among the calls of a run. *)
Definition is_validation (e : effect) : bool :=
  match e with ValidateAddress _ => true | _ => false end.

Definition validations (calls : list effect) : list effect :=
  filter is_validation calls.

Definition generations (calls : list effect) : list effect :=
  filter is_generation calls.

(** A constructor table whose constructors throw. *)
Definition failing_SeedStore (err : string)
  : string → string → string → metaInfo → completion seedStore :=
  λ _ _ _ _, Throws err.

(** The message typed last in a sequence of events, [""] when none was. *)
Definition last_message (evs : list event) : string :=
  foldl (λ m ev, match ev with MessageChange value => value | _ => m end) "" evs.

(** The values the counter takes in the life of a component: unset, the
    sentinel of teardown, or 1 to 4. *)
Definition counter_in_range (f : option Z) : Prop :=
  match f with
  | None => True
  | Some z => z = -1 ∨ 1 ≤ z ≤ 4
  end.

(** A sample [byteToChar]: a tryte alphabet indexed by the byte. *)
Definition tryte_of_byte (b : Z) : string :=
  match String.get (Z.to_nat (b `mod` 27)) "9ABCDEFGHIJKLMNOPQRSTUVWXYZ" with
  | Some a => String a EmptyString
  | None => EmptyString
  end.

End Receive.

(** * The market-data actions *)

Module MarketData.

(** ** JavaScript numbers and values *)

(** A JavaScript Number is an IEEE 754 binary64. *)
Definition prec : Z := 53.
Definition emax : Z := 1024.

Abbreviation number := spec_float.

Definition NaN : number := S754_nan.

Definition of_Z (n : Z) : number := binary_normalize prec emax n 0 false.

Definition times (x y : number) : number := SFmul prec emax x y.
Definition divided_by (x y : number) : number := SFdiv prec emax x y.

(** The values a field of the price payload can hold. *)
Inductive value : Type :=
  | Undefined
  | Null
  | Boolean (b : bool)
  | Number (x : number)
  | Text (s : string).

(** Truthiness, as [||] tests it. *)
Definition truthy (v : value) : bool :=
  match v with
  | Undefined | Null => false
  | Boolean b => b
  | Number (S754_zero _) | Number S754_nan => false
  | Number _ => true
  | Text EmptyString => false
  | Text _ => true
  end.

Definition js_or (v w : value) : value := if truthy v then v else w.

(** [Math.round]: the integer nearest to the number, ties towards
    +infinity; [-0] for a number in [[-0.5, 0)].  A finite number with a
    non-negative exponent is an integer already; otherwise the result is
    [floor (x + 1/2)], computed exactly. *)
Definition Math_round (x : number) : number :=
  match x with
  | S754_finite s m e =>
      if bool_decide (0 ≤ e) then x
      else
        let n := (2 * cond_Zopp s (Z.pos m) + 2 ^ (- e)) `div` 2 ^ (1 - e) in
        if bool_decide (n = 0) then S754_zero s
        else binary_normalize prec emax n 0 false
  | _ => x
  end.

(** [parseFloat] applied to a Number: the argument is converted to a string
    and read back, which returns the number itself, except that [-0]
    prints as ["0"]. *)
Definition parseFloat (x : number) : number :=
  match x with
  | S754_zero _ => S754_zero false
  | _ => x
  end.

(** ** [Number.prototype.toFixed] with two fraction digits *)

(** Decimal digits of a natural number. *)
Definition digits (n : N) : list ascii :=
  list_ascii_of_string (NilZero.string_of_uint (N.to_uint n)).

(** Step 8 of the algorithm for [f = 2]: pad the digits of [n] to at least
    three characters and put the point before the last two. *)
Definition fixed_point (n : N) : list ascii :=
  let m := digits n in
  let m := replicate (3 - length m)%nat "0"%char ++ m in
  let k := length m in
  take (k - 2)%nat m ++ "."%char :: drop (k - 2)%nat m.

(** [|x| >= 10^21] for [|x| = m * 2^e]. *)
Definition at_least_1e21 (m : positive) (e : Z) : bool :=
  if bool_decide (0 ≤ e) then bool_decide (10 ^ 21 ≤ Z.pos m * 2 ^ e)
  else bool_decide (10 ^ 21 * 2 ^ (- e) ≤ Z.pos m).

(** The integer [n] for which [n / 100 - |x|] is closest to zero, the
    larger one on a tie. *)
Definition hundredths (m : positive) (e : Z) : N :=
  Z.to_N (if bool_decide (0 ≤ e) then 100 * Z.pos m * 2 ^ e
          else (200 * Z.pos m + 2 ^ (- e)) `div` 2 ^ (1 - e)).

(** The price payload: an object read by property name. *)
Abbreviation payload := (gmap string value).

Section Builtins.

(** [Number::toString] on a finite number of magnitude at least [10^21]
    (exponent notation with the shortest round-tripping digits), and the
    conversion of a string to a number: two built-ins of the language that
    stay abstract. *)
Variable toString_large : positive → Z → string.
Variable StringToNumber : string → number.

Definition toFixed2 (x : number) : string :=
  match x with
  | S754_nan => "NaN"
  | S754_infinity false => "Infinity"
  | S754_infinity true => "-Infinity"
  | S754_zero _ => "0.00"
  | S754_finite s m e =>
      let sign := if s then "-" else "" in
      if at_least_1e21 m e then sign +:+ toString_large m e
      else sign +:+ string_of_list_ascii (fixed_point (hundredths m e))
  end.

(** [ToNumber] *)
Definition ToNumber (v : value) : number :=
  match v with
  | Undefined => NaN
  | Null => S754_zero false
  | Boolean true => of_Z 1
  | Boolean false => S754_zero false
  | Number x => x
  | Text s => StringToNumber s
  end.

(** ** Actions *)

Definition SET_TIMEFRAME : string := "IOTA/MARKET_DATA/SET_TIMEFRAME".
Definition SET_CHART_DATA : string := "IOTA/MARKET_DATA/SET_CHART_DATA".
Definition SET_STATISTICS : string := "IOTA/MARKET_DATA/SET_STATISTICS".
Definition SET_CURRENCY : string := "IOTA/MARKET_DATA/SET_CURRENCY".
Definition SET_PRICE : string := "IOTA/MARKET_DATA/SET_PRICE".

(** The action object built by [setMarketData]. *)
Record statistics : Type := Statistics {
  type : string;
  price : value;
  mcap : number;
  volume : number;
  change24h : string;
}.

(** lodash [get(object, path)] on a path that is a field name (see
    [field_name] below): the path is then one property name and the result
    the own property of the object, [undefined] when it has none.  That is
    what a currency code followed by a fixed suffix is.  Other strings, which
    [get] parses as a path or finds among the members every object inherits,
    are outside this model. *)
Definition get (data : payload) (path : string) : value :=
  default Undefined (data !! path).

(** [get(object, path, defaultValue)]: the default replaces a value that
    resolves to [undefined]. *)
Definition get_or (data : payload) (path : string) (defaultValue : value) : value :=
  match get data path with
  | Undefined => defaultValue
  | v => v
  end.

Definition setMarketData (currency : string) (data : payload) : statistics :=
  let price := js_or (get data currency) (Number (of_Z 0)) in
  let mcap := Math_round (ToNumber (get_or data (currency +:+ "_market_cap") (Number (of_Z 0)))) in
  let volume := Math_round (ToNumber (get_or data (currency +:+ "_24h_vol") (Number (of_Z 0)))) in
  let changePct24Hours := get_or data (currency +:+ "_24h_change") (Number (of_Z 0)) in
  let change24h :=
    toFixed2 (parseFloat (divided_by (Math_round (times (ToNumber changePct24Hours) (of_Z 100)))
                                     (of_Z 100))) in
  {| type := SET_STATISTICS;
     price := price;
     mcap := mcap;
     volume := volume;
     change24h := change24h |}.

End Builtins.

(** ** The chart-data thunk *)

Section Thunks.

(** The Redux state and its reducer, the chart series as the price API
    returns it and as [formatChartData] (of [libs/utils]) formats it. *)
Variables (State Prices ChartData : Type).

(** The other action objects of the module. *)
Inductive action : Type :=
  | SetTimeframe (timeframe : string)
  | SetMarketData (stats : statistics)
  | SetCurrency (currency : string)
  | SetPrice (price : payload)
  | SetChartData (chartData : gmap string ChartData).

Definition action_type (a : action) : string :=
  match a with
  | SetTimeframe _ => SET_TIMEFRAME
  | SetMarketData stats => type stats
  | SetCurrency _ => SET_CURRENCY
  | SetPrice _ => SET_PRICE
  | SetChartData _ => SET_CHART_DATA
  end.

Variable reducer : State → action → State.

(** [getState().settings]: a string, or a value without [toLowerCase]. *)
Variable settings : State → option string.
Variable toLowerCase : string → string.

(** [coingecko.coins.fetchMarketChart('iota', { days, vs_currencies })]:
    how the promise settles.  The first argument names the chain that sent
    the request, since two requests with the same arguments need not settle
    alike.  A fulfilled promise carries the response object ([None] when
    there is none to read [prices] from). *)
Variable fetchMarketChart : string → option Z → string → completion (option Prices).

Variable formatChartData : Prices → completion ChartData.

(** What a thunk does to the world. *)
Inductive effect : Type :=
  | Dispatch (a : action)
  | FetchMarketChart (coin : string) (days : option Z) (vs_currencies : string)
  | ConsoleLog (error : string).

(** [get(timeframeMap, timeframe)]: the table is read by own key.  That is
    what [get] does on the timeframes of the module, the only ones that
    [fetchChartData], which is not exported, is called with. *)
Definition timeframeMap : gmap string Z :=
  {[ "24h" := 1; "7d" := 7; "1m" := 30 ]}.

(** [fetchChartData(currency, timeframe)]: the request it sends and how the
    promise it returns settles.  ['1h'] fetches the ['24h'] series and
    passes it on. *)
Definition fetchChartData (currency timeframe : string)
  : effect * completion Prices :=
  let timeframe' := if bool_decide (timeframe = "1h") then "24h" else timeframe in
  let days := timeframeMap !! timeframe' in
  (FetchMarketChart "iota" days currency,
   match fetchMarketChart timeframe days currency with
   | Returns (Some prices) => Returns prices
   | Returns None => Throws "TypeError"
   | Throws err => Throws err
   end).

(** The [then]/[catch] chain hung on one request: the calls it makes and
    the entry it stores in the local [chartData] object. *)
Definition settle (timeframe : string) (fetched : completion Prices)
    (chartData : gmap string ChartData) : list effect * gmap string ChartData :=
  match fetched with
  | Returns data =>
      match formatChartData data with
      | Returns formatted => ([], <[timeframe := formatted]> chartData)
      | Throws error => ([ConsoleLog error], chartData)
      end
  | Throws error => ([ConsoleLog error], chartData)
  end.

Definition timeframes : list string := ["24h"; "7d"; "1m"; "1h"].

Record run : Type := Run {
  trace : list effect;
  chartData : gmap string ChartData;
  result : completion unit;
}.

(** The thunk returned by [getChartData()], run on a store in state [st].
    The four requests leave in the order of [timeframes]; their
    continuations run later, in the order [arrival] in which the promises
    settle (a rearrangement of [timeframes]). *)
Definition getChartData (arrival : list string) (st : State) : run :=
  match settings st with
  | None => {| trace := []; chartData := ∅; result := Throws "TypeError" |}
  | Some s =>
      let currency := toLowerCase s in
      let sent := (λ tf, fst (fetchChartData currency tf)) <$> timeframes in
      let settled :=
        foldl (λ so_far tf,
                 let '(more, chart) :=
                   settle tf (snd (fetchChartData currency tf)) (snd so_far) in
                 (fst so_far ++ more, chart))
              ([], ∅) arrival in
      {| trace := sent ++ fst settled; chartData := snd settled;
         result := Returns () |}
  end.

(** The store after the calls of a trace: only a dispatched action reaches
    the reducer. *)
Definition store_after (st : State) (calls : list effect) : State :=
  foldl (λ st e, match e with Dispatch a => reducer st a | _ => st end) st calls.

Definition dispatched (calls : list effect) : list action :=
  omap (λ e, match e with Dispatch a => Some a | _ => None end) calls.

End Thunks.

Arguments Dispatch {ChartData} a.
Arguments FetchMarketChart {ChartData} coin days vs_currencies.
Arguments ConsoleLog {ChartData} error.
Arguments trace {ChartData} r.
Arguments chartData {ChartData} r.
Arguments result {ChartData} r.
Arguments action_type {ChartData} a.
Arguments fetchChartData {Prices ChartData} fetchMarketChart currency timeframe.
Arguments settle {Prices ChartData} formatChartData timeframe fetched chartData.
Arguments getChartData {State Prices ChartData}
  settings toLowerCase fetchMarketChart formatChartData arrival st.
Arguments store_after {State ChartData} reducer st calls.
Arguments dispatched {ChartData} calls.

(** The number that [change24h] prints. *)
Definition rounded_change (StringToNumber : string → number)
    (currency : string) (data : payload) : number :=
  parseFloat (divided_by
    (Math_round (times (ToNumber StringToNumber
                          (get_or data (currency +:+ "_24h_change") (Number (of_Z 0))))
                       (of_Z 100)))
    (of_Z 100)).

(** A string with exactly two decimal digits: an optional sign, at least one
    digit, a point, two digits. *)
Definition is_digit (a : ascii) : bool :=
  let n := nat_of_ascii a in (48 <=? n)%nat && (n <=? 57)%nat.

Definition two_decimals_unsigned (l : list ascii) : bool :=
  let k := length l in
  (4 <=? k)%nat
  && forallb is_digit (take (k - 3) l)
  && bool_decide (l !! (k - 3)%nat = Some "."%char)
  && forallb is_digit (drop (k - 2) l).

Definition two_decimals (s : string) : bool :=
  match list_ascii_of_string s with
  | [] => false
  | a :: l =>
      if Ascii.eqb a "-" then two_decimals_unsigned l
      else two_decimals_unsigned (a :: l)
  end.

(** The numbers that [toFixed] prints in fixed notation: finite and below
    [10^21] in magnitude. *)
Definition fixed_range (x : number) : bool :=
  match x with
  | S754_zero _ => true
  | S754_finite _ m e => negb (at_least_1e21 m e)
  | S754_infinity _ | S754_nan => false
  end.

(** Field names: the strings that [get] reads as one own property.  They
    are made of the characters of [\w] (so that the string is no path) and
    are none of the names of the members that every object inherits. *)
Definition word_char (a : ascii) : bool :=
  let n := nat_of_ascii a in
  ((48 <=? n)%nat && (n <=? 57)%nat) || ((65 <=? n)%nat && (n <=? 90)%nat)
  || ((97 <=? n)%nat && (n <=? 122)%nat) || (n =? 95)%nat.

Definition inherited_names : list string :=
  ["constructor"; "__defineGetter__"; "__defineSetter__"; "hasOwnProperty";
   "__lookupGetter__"; "__lookupSetter__"; "isPrototypeOf";
   "propertyIsEnumerable"; "toString"; "valueOf"; "__proto__";
   "toLocaleString"].

Definition field_name (path : string) : bool :=
  forallb word_char (list_ascii_of_string path)
  && negb (existsb (String.eqb path) inherited_names).

(** *** Samples *)

(** Stand-ins for the two abstract built-ins, and a payload whose change
    field is not a number. *)
Definition sample_toString_large (m : positive) (e : Z) : string := "1e+21".

Definition sample_StringToNumber (s : string) : number := NaN.

Definition sample_quote : payload :=
  {[ "usd" := Number (divided_by (of_Z 27) (of_Z 100));
     "usd_market_cap" := Number (divided_by (of_Z 7503) (of_Z 10));
     "usd_24h_change" := Number (divided_by (of_Z (-1239)) (of_Z 1000)) ]}.

Definition sample_broken_quote : payload :=
  {[ "usd" := Number (divided_by (of_Z 27) (of_Z 100));
     "usd_24h_change" := Number NaN ]}.

(** ** The price thunks and the thunks that chain them *)

Arguments SetTimeframe {ChartData} timeframe.
Arguments SetMarketData {ChartData} stats.
Arguments SetCurrency {ChartData} currency.
Arguments SetPrice {ChartData} price.
Arguments SetChartData {ChartData} chartData.

(** The response of [coingecko.simple.price] for the coin ['iota']: an
    object whose [iota] field, when there is one, is the price payload. *)
Record quotes : Type := Quotes {
  iota : option payload;
}.

(** How a thunk ends: it returns, the promise it returns rejects, or it
    throws before returning. *)
Inductive ending : Type :=
  | Fulfilled
  | Rejected (err : string)
  | Thrown (err : string).

Section Store.

Variables (State Prices ChartData : Type).

Variable toString_large : positive → Z → string.
Variable StringToNumber : string → number.

(** What reaches the reducer: a plain action, or the action that
    [setPrice] builds around the response of the price API as it came
    ([None] for a promise fulfilled with nothing). *)
Inductive message : Type :=
  | Plain (a : action ChartData)
  | PriceOf (price : option quotes).

Definition message_type (m : message) : string :=
  match m with
  | Plain a => action_type a
  | PriceOf _ => SET_PRICE
  end.

Definition setTimeframe (timeframe : string) : message :=
  Plain (SetTimeframe timeframe).

Definition setCurrency (currency : string) : message :=
  Plain (SetCurrency currency).

Definition setPrice (price : option quotes) : message := PriceOf price.

Definition setChartData (chartData : gmap string ChartData) : message :=
  Plain (SetChartData chartData).

Variable reducer : State → message → State.
Variable settings : State → option string.
Variable toLowerCase : string → string.

(** [coingecko.simple.price(options)]: how the promise settles, by the
    thunk that sent the request and the currency asked for. *)
Variable simple_price : string → string → completion (option quotes).

Variable fetchMarketChart : string → option Z → string → completion (option Prices).
Variable formatChartData : Prices → completion ChartData.

Inductive call : Type :=
  | Send (m : message)
  | SimplePrice (ids vs_currencies : string)
      (include_market_cap include_24hr_vol include_24hr_change : bool)
  | Chart (e : effect ChartData).

(** The calls a thunk makes before it returns, the calls its continuations
    make later, and how it ends. *)
Record thunk_run : Type := ThunkRun {
  sent : list call;
  later : list call;
  ended : ending;
}.

(** The thunk of [getPrice()]. *)
Definition getPrice (st : State) : thunk_run :=
  match settings st with
  | None => {| sent := []; later := []; ended := Thrown "TypeError" |}
  | Some s =>
      let currency := toLowerCase s in
      let request := SimplePrice "iota" currency false false false in
      match simple_price "getPrice" currency with
      | Returns price =>
          {| sent := [request]; later := [Send (setPrice price)];
             ended := Fulfilled |}
      | Throws err => {| sent := [request]; later := []; ended := Rejected err |}
      end
  end.

(** [setMarketData(currency, data.iota)]: on a payload that is
    [undefined], [get] resolves every path to [undefined], as it does on an
    object without the property. *)
Definition statistics_of_quotes (currency : string) (data : quotes) : statistics :=
  setMarketData toString_large StringToNumber currency (default ∅ (iota data)).

(** The thunk of [getMarketData()]; reading [data.iota] throws when the
    promise is fulfilled with nothing. *)
Definition getMarketData (st : State) : thunk_run :=
  match settings st with
  | None => {| sent := []; later := []; ended := Thrown "TypeError" |}
  | Some s =>
      let currency := toLowerCase s in
      let request := SimplePrice "iota" currency true true true in
      match simple_price "getMarketData" currency with
      | Returns (Some data) =>
          {| sent := [request];
             later := [Send (Plain (SetMarketData (statistics_of_quotes currency data)))];
             ended := Fulfilled |}
      | Returns None =>
          {| sent := [request]; later := []; ended := Rejected "TypeError" |}
      | Throws err => {| sent := [request]; later := []; ended := Rejected err |}
      end
  end.

(** The body shared by [changeCurrency] and [changeTimeframe]: dispatch
    [first], then the thunk of [getPrice], then the thunk of
    [getChartData]; both thunks are called without arguments that they
    read.  The store has handled [first] when the thunks read it.  The
    continuation of the price request runs after [turn] of the chart
    continuations; a rejection of the price promise is not handled. *)
Definition change (first : message) (arrival : list string) (turn : nat)
    (st : State) : thunk_run :=
  let st1 := reducer st first in
  let price := getPrice st1 in
  match ended price with
  | Thrown err => {| sent := [Send first]; later := []; ended := Thrown err |}
  | _ =>
      let chart :=
        trace (getChartData settings toLowerCase fetchMarketChart
                 formatChartData arrival st1) in
      let requests := take (length timeframes) chart in
      let continuations := drop (length timeframes) chart in
      {| sent := Send first :: sent price ++ (Chart <$> requests);
         later := (Chart <$> take turn continuations) ++ later price
                    ++ (Chart <$> drop turn continuations);
         ended := Fulfilled |}
  end.

Definition changeCurrency (currency timeframe : string) :=
  change (setCurrency currency).

Definition changeTimeframe (currency timeframe : string) :=
  change (setTimeframe timeframe).

(** The store after a list of calls, and the messages sent to it. *)
Definition store_of (st : State) (calls : list call) : State :=
  foldl (λ st c, match c with Send m => reducer st m | _ => st end) st calls.

Definition messages (calls : list call) : list message :=
  omap (λ c, match c with Send m => Some m | _ => None end) calls.

Definition price_requests (calls : list call)
  : list (string * string * (bool * bool * bool)) :=
  omap (λ c, match c with
             | SimplePrice ids currency cap vol change =>
                 Some (ids, currency, (cap, vol, change))
             | _ => None
             end) calls.

Definition chart_calls (calls : list call) : list (effect ChartData) :=
  omap (λ c, match c with Chart e => Some e | _ => None end) calls.

End Store.

Arguments Plain {ChartData} a.
Arguments PriceOf {ChartData} price.
Arguments message_type {ChartData} m.
Arguments setTimeframe {ChartData} timeframe.
Arguments setCurrency {ChartData} currency.
Arguments setPrice {ChartData} price.
Arguments setChartData {ChartData} chartData.
Arguments Send {ChartData} m.
Arguments SimplePrice {ChartData} ids vs_currencies
  include_market_cap include_24hr_vol include_24hr_change.
Arguments Chart {ChartData} e.
Arguments sent {ChartData} t.
Arguments later {ChartData} t.
Arguments ended {ChartData} t.
Arguments ThunkRun {ChartData} sent later ended.
Arguments getPrice {State ChartData} settings toLowerCase simple_price st.
Arguments getMarketData {State ChartData} toString_large StringToNumber
  settings toLowerCase simple_price st.
Arguments change {State Prices ChartData} reducer settings toLowerCase
  simple_price fetchMarketChart formatChartData first arrival turn st.
Arguments changeCurrency {State Prices ChartData} reducer settings toLowerCase
  simple_price fetchMarketChart formatChartData currency timeframe arrival turn st.
Arguments changeTimeframe {State Prices ChartData} reducer settings toLowerCase
  simple_price fetchMarketChart formatChartData currency timeframe arrival turn st.
Arguments store_of {State ChartData} reducer st calls.
Arguments messages {ChartData} calls.
Arguments price_requests {ChartData} calls.
Arguments chart_calls {ChartData} calls.

(** The chart entries of a run: the requests sent for a currency, and the
    errors logged. *)
Definition logs {ChartData} (calls : list (effect ChartData)) : list string :=
  omap (λ e, match e with ConsoleLog error => Some error | _ => None end) calls.

Definition chart_requests {ChartData} (calls : list (effect ChartData))
  : list (string * option Z * string) :=
  omap (λ e, match e with
             | FetchMarketChart coin days currency => Some (coin, days, currency)
             | _ => None
             end) calls.

(** *** Sample collaborators of the thunks *)

(** A store that is its [settings] string, a price API that times out on
    the ['7d'] chain and answers the others with three points, and a
    formatter that counts the points. *)
Definition sample_settings (st : string) : option string := Some st.

Definition sample_toLowerCase (s : string) : string := s.

Definition sample_fetchMarketChart (timeframe : string) (days : option Z)
    (currency : string) : completion (option (list Z)) :=
  if bool_decide (timeframe = "7d") then Throws "timeout"
  else Returns (Some [270; 271; 269]).

Definition sample_formatChartData (prices : list Z) : completion nat :=
  Returns (length prices).

Definition sample_simple_price (site currency : string)
  : completion (option quotes) :=
  Returns (Some {| iota := Some sample_quote |}).

End MarketData.

(** * Facts about the Receive component *)

Module ReceiveFacts.
Import Receive.

(** ** The decay loop *)

Lemma decay_loop_spec (rest scrambleNew : list Z) (sum : Z) :
  decay_loop rest scrambleNew sum
  = (scrambleNew ++ (decayed <$> rest), sum + total rest).
Proof.
  revert scrambleNew sum.
  induction rest as [|e rest IH]; intros scrambleNew sum; simpl.
  - by rewrite app_nil_r, Z.add_0_r.
  - rewrite IH, <- app_assoc. simpl. f_equal. lia.
Qed.

Lemma accumulated_sum_total (c : component) :
  accumulated_sum c = total (scramble c).
Proof. unfold accumulated_sum. by rewrite decay_loop_spec. Qed.

(** ** The three behaviours of one [unscramble] call *)

Lemma unscramble_stopped (c : component) (f : Z) :
  frame c = Some f → f < 0 → unscramble c = (c, false).
Proof.
  intros Hf Hneg. unfold unscramble. rewrite Hf. simpl.
  by rewrite bool_decide_eq_true_2.
Qed.

Lemma unscramble_wait (c : component) (f : Z) :
  frame c = Some f → 0 ≤ f ≤ 3 →
  unscramble c = (set_frame (Some (f + 1)) c, true).
Proof.
  intros Hf Hrange. unfold unscramble. rewrite Hf. simpl.
  rewrite bool_decide_eq_false_2 by lia.
  rewrite bool_decide_eq_false_2 by lia.
  simpl. by rewrite Hf.
Qed.

Lemma unscramble_tick (c : component) (f : Z) :
  frame c = Some f → 3 < f →
  unscramble c
  = ({| message := message c; scramble := decayed <$> scramble c;
        frame := Some 1 |},
     negb (bool_decide (total (scramble c) = 0))).
Proof.
  intros Hf Hgt. unfold unscramble. rewrite Hf. simpl.
  rewrite bool_decide_eq_false_2 by lia.
  rewrite bool_decide_eq_true_2 by lia.
  by rewrite decay_loop_spec.
Qed.

Lemma unscramble_not_a_number (c : component) :
  frame c = None → unscramble c = (c, true).
Proof.
  intros Hf. unfold unscramble. rewrite Hf. simpl.
  destruct c as [m s f]; simpl in *. by subst.
Qed.

(** ** Sums and decay of non-negative buffers *)

Lemma total_nonneg (l : list Z) : Forall (λ e, 0 ≤ e) l → 0 ≤ total l.
Proof. induction 1; simpl; lia. Qed.

Lemma total_zero_iff (l : list Z) :
  Forall (λ e, 0 ≤ e) l → total l = 0 ↔ Forall (λ e, e = 0) l.
Proof.
  induction 1 as [|e l He Hl IH]; simpl.
  - split; [constructor | done].
  - pose proof (total_nonneg l Hl). split.
    + intros Hsum. constructor; [lia | apply IH; lia].
    + intros Hall. inversion Hall; subst. apply IH in H3. lia.
Qed.

Lemma total_replicate_zero (n : nat) : total (replicate n 0) = 0.
Proof. induction n; simpl; lia. Qed.

Lemma total_positive (l : list Z) :
  Forall (λ e, 0 ≤ e) l → Exists (λ e, 0 < e) l → 0 < total l.
Proof.
  intros Hall Hex. pose proof (total_nonneg l Hall).
  destruct (decide (total l = 0)) as [Hz|]; [|lia].
  apply total_zero_iff in Hz; [|done].
  apply Exists_exists in Hex as (e & Hin & Hpos).
  rewrite Forall_forall in Hz. specialize (Hz e Hin). lia.
Qed.

Lemma decayed_small (l : list Z) :
  Forall (λ e, e ≤ 15) l → decayed <$> l = replicate (length l) 0.
Proof.
  induction 1 as [|e l He Hl IH]; [done|].
  rewrite fmap_cons, IH. simpl. f_equal. unfold decayed. lia.
Qed.

Lemma decayed_zeros (n : nat) : decayed <$> replicate n 0 = replicate n 0.
Proof. induction n; simpl; [done|]. f_equal. exact IHn. Qed.

Lemma randomBytes_length (entropy : nat → Z) (size : nat) :
  length (randomBytes entropy size) = size.
Proof. unfold randomBytes. by rewrite length_fmap, length_seq. Qed.

Lemma randomBytes_bytes (entropy : nat → Z) (size : nat) :
  Forall (λ e, 0 ≤ e < 256) (randomBytes entropy size).
Proof.
  unfold randomBytes. apply Forall_fmap, Forall_forall.
  intros i _. simpl. apply Z.mod_pos_bound. lia.
Qed.

(** ** One reveal cycle on the display *)

Section Reveal.

Variable ADDRESS_LENGTH : nat.

Lemma start_spec (entropy : nat → Z) (c : component) :
  start ADDRESS_LENGTH entropy c
  = ({| message := message c; scramble := randomBytes entropy ADDRESS_LENGTH;
        frame := Some 1 |}, 1%nat).
Proof. reflexivity. Qed.

Lemma display_frame_idle (c : component) : display_frame (c, 0%nat) = (c, 0%nat).
Proof. reflexivity. Qed.

Lemma display_frames_idle (k : nat) (c : component) :
  display_frames k (c, 0%nat) = (c, 0%nat).
Proof. induction k; simpl; [done|]. by rewrite display_frame_idle. Qed.

Lemma display_frame_wait (m : string) (buf : list Z) (f : Z) :
  0 ≤ f ≤ 3 →
  display_frame ({| message := m; scramble := buf; frame := Some f |}, 1%nat)
  = ({| message := m; scramble := buf; frame := Some (f + 1) |}, 1%nat).
Proof.
  intros Hf. unfold display_frame. simpl.
  by rewrite (unscramble_wait _ f) by done.
Qed.

Lemma display_frame_tick (m : string) (buf : list Z) (f : Z) :
  3 < f →
  display_frame ({| message := m; scramble := buf; frame := Some f |}, 1%nat)
  = ({| message := m; scramble := decayed <$> buf; frame := Some 1 |},
     if bool_decide (total buf = 0) then 0%nat else 1%nat).
Proof.
  intros Hf. unfold display_frame. simpl.
  rewrite (unscramble_tick _ f) by done. simpl.
  by destruct (bool_decide (total buf = 0)).
Qed.

Lemma display_frames_S (k : nat) (s : component * nat) :
  display_frames (S k) s = display_frame (display_frames k s).
Proof.
  revert s. induction k as [|k IH]; intros s; [done|].
  change (display_frames (S (S k)) s) with (display_frames (S k) (display_frame s)).
  by rewrite IH.
Qed.

(** Three waiting frames bring the counter from 1 to 4. *)
Lemma display_frames_to_tick (m : string) (buf : list Z) (k : nat) :
  (k ≤ 3)%nat →
  display_frames k ({| message := m; scramble := buf; frame := Some 1 |}, 1%nat)
  = ({| message := m; scramble := buf; frame := Some (1 + Z.of_nat k) |}, 1%nat).
Proof.
  induction k as [|k IH]; intros Hk; [done|].
  rewrite display_frames_S, IH by lia.
  rewrite display_frame_wait by lia.
  do 3 f_equal. lia.
Qed.

(** The fourth frame after a (re)start of the counter is a decay tick. *)
Lemma display_frames_tick (m : string) (buf : list Z) :
  display_frames 4 ({| message := m; scramble := buf; frame := Some 1 |}, 1%nat)
  = ({| message := m; scramble := decayed <$> buf; frame := Some 1 |},
     if bool_decide (total buf = 0) then 0%nat else 1%nat).
Proof.
  rewrite display_frames_S, display_frames_to_tick by lia.
  by rewrite display_frame_tick by lia.
Qed.

Lemma display_frames_add (j k : nat) (s : component * nat) :
  display_frames (j + k) s = display_frames k (display_frames j s).
Proof. revert s. induction j as [|j IH]; intros s; simpl; [done|]. apply IH. Qed.

(** C1, as amended.  A buffer with every magnitude at most 15 and one of
    them positive: the first decay tick, on the fourth display frame after
    [start], brings every magnitude to 0 but still requests a frame, because
    the sum it tests is that of the magnitudes before the decay; the loop
    stops at the second decay tick, on the eighth frame, and nothing is
    requested afterwards. *)
Theorem small_buffer_reveal (entropy : nat → Z) (c : component) (k : nat) :
  Forall (λ e, e ≤ 15) (randomBytes entropy ADDRESS_LENGTH) →
  Exists (λ e, 0 < e) (randomBytes entropy ADDRESS_LENGTH) →
  scramble (fst (display_frames k (start ADDRESS_LENGTH entropy c)))
  = (if decide (k < 4)%nat then randomBytes entropy ADDRESS_LENGTH
     else replicate ADDRESS_LENGTH 0)
  ∧ snd (display_frames k (start ADDRESS_LENGTH entropy c))
    = (if decide (k < 8)%nat then 1%nat else 0%nat).
Proof.
  intros Hsmall Hpos. rewrite start_spec.
  set (b := randomBytes entropy ADDRESS_LENGTH) in *.
  assert (Hsum : total b ≠ 0).
  { assert (0 < total b); [|lia].
    apply total_positive; [|done].
    eapply Forall_impl; [apply randomBytes_bytes|]. simpl. lia. }
  assert (Hzero : decayed <$> b = replicate ADDRESS_LENGTH 0).
  { rewrite decayed_small by done. unfold b. by rewrite randomBytes_length. }
  destruct (decide (k < 4)%nat) as [Hk4|Hk4].
  { rewrite display_frames_to_tick by lia.
    by rewrite decide_True by lia. }
  replace k with (4 + (k - 4))%nat by lia.
  rewrite display_frames_add, display_frames_tick, Hzero.
  rewrite bool_decide_eq_false_2 by done.
  destruct (decide (k - 4 < 4)%nat) as [Hk8|Hk8].
  { rewrite display_frames_to_tick by lia.
    by rewrite decide_True by lia. }
  replace (k - 4)%nat with (4 + (k - 8))%nat by lia.
  rewrite display_frames_add, display_frames_tick, decayed_zeros.
  rewrite bool_decide_eq_true_2 by apply total_replicate_zero.
  rewrite display_frames_idle.
  by rewrite decide_False by lia.
Qed.

End Reveal.

(** A buffer of eighty-one magnitudes, all 15. *)
Lemma fifteens_small : Forall (λ e, e ≤ 15) (randomBytes (λ _, 15) 81).
Proof.
  apply Forall_forall. intros e He.
  apply list_elem_of_fmap in He as (i & -> & _). vm_compute. discriminate.
Qed.

Lemma fifteens_positive : Exists (λ e, 0 < e) (randomBytes (λ _, 15) 81).
Proof. apply Exists_cons_hd. vm_compute. reflexivity. Qed.

Lemma small_buffer_reveal_witness :
  Forall (λ e, e ≤ 15) (randomBytes (λ _, 15) 81)
  ∧ Exists (λ e, 0 < e) (randomBytes (λ _, 15) 81)
  ∧ scramble (fst (display_frames 8 (start 81 (λ _, 15) (initial 81))))
    = replicate 81 0
  ∧ snd (display_frames 8 (start 81 (λ _, 15) (initial 81))) = 0%nat.
Proof.
  split; [exact fifteens_small|].
  split; [exact fifteens_positive|].
  exact (small_buffer_reveal 81 (λ _, 15) (initial 81) 8
           fifteens_small fifteens_positive).
Defined.

(** C1, as stated, fails: the decay tick that brings this buffer to zero
    (the fourth frame after [start]) requests a further frame. *)
Lemma small_buffer_first_tick_still_schedules :
  Forall (λ e, e ≤ 15) (randomBytes (λ _, 15) 81)
  ∧ Exists (λ e, 0 < e) (randomBytes (λ _, 15) 81)
  ∧ scramble (fst (display_frames 3 (start 81 (λ _, 15) (initial 81))))
    = randomBytes (λ _, 15) 81
  ∧ scramble (fst (display_frames 4 (start 81 (λ _, 15) (initial 81))))
    = replicate 81 0
  ∧ snd (display_frames 4 (start 81 (λ _, 15) (initial 81))) ≠ 0%nat.
Proof.
  split; [exact fifteens_small|].
  split; [exact fifteens_positive|].
  split; [vm_compute; reflexivity|].
  split; [vm_compute; reflexivity|].
  vm_compute. discriminate.
Qed.

(** ** The termination check *)

(** C2, as amended.  On a decay tick the sum read by the termination check
    is the sum of the magnitudes before the decay; the buffer becomes the
    decayed one; a frame is requested exactly when that sum is not zero; so
    a cycle over non-negative magnitudes stops at the tick that finds the
    buffer already all zero. *)
Theorem decay_tick_sum (c : component) (f : Z) :
  frame c = Some f → 3 < f →
  accumulated_sum c = total (scramble c)
  ∧ scramble (fst (unscramble c)) = decayed <$> scramble c
  ∧ (snd (unscramble c) = true ↔ accumulated_sum c ≠ 0)
  ∧ (Forall (λ e, 0 ≤ e) (scramble c) →
     snd (unscramble c) = false ↔ Forall (λ e, e = 0) (scramble c)).
Proof.
  intros Hf Hgt. rewrite accumulated_sum_total.
  rewrite (unscramble_tick c f) by done. simpl.
  split; [done|]. split; [done|]. split.
  - rewrite negb_true_iff, bool_decide_eq_false. done.
  - intros Hnonneg. rewrite negb_false_iff, bool_decide_eq_true.
    by apply total_zero_iff.
Qed.

Lemma decay_tick_sum_witness :
  accumulated_sum {| message := ""; scramble := [20; 0; 7]; frame := Some 4 |}
  = total [20; 0; 7]
  ∧ scramble (fst (unscramble
      {| message := ""; scramble := [20; 0; 7]; frame := Some 4 |}))
    = decayed <$> [20; 0; 7]
  ∧ (snd (unscramble
       {| message := ""; scramble := [20; 0; 7]; frame := Some 4 |}) = true
     ↔ accumulated_sum
         {| message := ""; scramble := [20; 0; 7]; frame := Some 4 |} ≠ 0)
  ∧ (Forall (λ e, 0 ≤ e) [20; 0; 7] →
     snd (unscramble
       {| message := ""; scramble := [20; 0; 7]; frame := Some 4 |}) = false
     ↔ Forall (λ e, e = 0) [20; 0; 7]).
Proof.
  apply (decay_tick_sum
           {| message := ""; scramble := [20; 0; 7]; frame := Some 4 |} 4).
  - reflexivity.
  - lia.
Defined.

(** C2, as stated, fails: on this decay tick the accumulated sum is not the
    sum of the new magnitudes, and the tick that brings the sum of the
    buffer to zero does not end the cycle. *)
Lemma accumulated_sum_is_not_the_new_sum :
  let c := {| message := ""; scramble := [5; 0; 7]; frame := Some 4 |} in
  accumulated_sum c = 12
  ∧ total (scramble (fst (unscramble c))) = 0
  ∧ accumulated_sum c ≠ total (scramble (fst (unscramble c)))
  ∧ snd (unscramble c) = true.
Proof. vm_compute. repeat split; discriminate. Qed.

(** ** Teardown *)

Lemma unscramble_unmounted (c : component) :
  unscramble (componentWillUnmount c) = (componentWillUnmount c, false).
Proof. by apply (unscramble_stopped _ (-1)). Qed.

Lemma run_callbacks_unmounted (n requested : nat) (c : component) :
  run_callbacks n (componentWillUnmount c) requested
  = (componentWillUnmount c, requested).
Proof.
  revert requested. induction n as [|n IH]; intros requested; [done|].
  cbn [run_callbacks]. rewrite unscramble_unmounted. apply IH.
Qed.

(** C3.  After [componentWillUnmount], any number of [unscramble] calls
    leaves the component as it is and requests no frame; on the display,
    the callbacks still registered run without effect and none is
    registered again. *)
Theorem unmounted_is_inert (c : component) :
  (∀ n, unscramble_calls n (componentWillUnmount c)
        = (componentWillUnmount c, false))
  ∧ (∀ k registered,
       display_frames (S k) (componentWillUnmount c, registered)
       = (componentWillUnmount c, 0%nat))
  ∧ scramble (componentWillUnmount c) = scramble c.
Proof.
  split; [|split; [|done]].
  - intros n. induction n as [|n IH]; [done|].
    cbn [unscramble_calls]. by rewrite unscramble_unmounted, IH.
  - intros k registered. cbn [display_frames].
    unfold display_frame at 1. cbn [fst snd].
    rewrite run_callbacks_unmounted. apply display_frames_idle.
Qed.

(** ** Floor and monotonicity of the decay *)

Lemma decayed_nonneg (l : list Z) : Forall (λ e, 0 ≤ e) (decayed <$> l).
Proof. apply Forall_fmap, Forall_true. intros e. unfold compose, decayed. lia. Qed.

Lemma decayed_below (l : list Z) :
  Forall (λ e, 0 ≤ e) l → Forall2 Z.le (decayed <$> l) l.
Proof.
  intros Hl. apply Forall2_fmap_l, Forall_Forall2_diag.
  eapply Forall_impl; [exact Hl|]. intros e He. simpl in *. unfold decayed. lia.
Qed.

(** A call either leaves the buffer alone or decays it. *)
Lemma unscramble_scramble (c : component) :
  scramble (fst (unscramble c)) = scramble c
  ∨ scramble (fst (unscramble c)) = decayed <$> scramble c.
Proof.
  destruct (frame c) as [f|] eqn:Hf.
  - destruct (decide (f < 0)).
    { left. by rewrite (unscramble_stopped c f Hf). }
    destruct (decide (f ≤ 3)).
    { left. by rewrite (unscramble_wait c f Hf) by lia. }
    right. by rewrite (unscramble_tick c f Hf) by lia.
  - left. by rewrite unscramble_not_a_number.
Qed.

Lemma unscramble_calls_S (n : nat) (c : component) :
  fst (unscramble_calls (S n) c) = fst (unscramble_calls n (fst (unscramble c))).
Proof.
  cbn [unscramble_calls]. destruct (unscramble c) as [c' again]. simpl.
  by destruct (unscramble_calls n c').
Qed.

(** C6.  On a decay tick every entry [e] becomes [max 0 (e - 15)]; over any
    number of [unscramble] calls on a buffer of non-negative magnitudes, no
    entry is negative and every entry is at most what it was. *)
Theorem decay_floor_monotone (c : component) :
  Forall (λ e, 0 ≤ e) (scramble c) →
  (∀ f, frame c = Some f → 3 < f →
        scramble (fst (unscramble c)) = (λ e, Z.max 0 (e - 15)) <$> scramble c)
  ∧ (∀ n, Forall (λ e, 0 ≤ e) (scramble (fst (unscramble_calls n c)))
          ∧ Forall2 Z.le (scramble (fst (unscramble_calls n c))) (scramble c)).
Proof.
  intros Hnonneg. split.
  - intros f Hf Hgt. by rewrite (unscramble_tick c f).
  - intros n. revert c Hnonneg.
    induction n as [|n IH]; intros c Hnonneg.
    { split; [done|]. apply Forall_Forall2_diag, Forall_true. lia. }
    rewrite unscramble_calls_S.
    destruct (unscramble_scramble c) as [Hsame|Hdecay].
    + destruct (IH (fst (unscramble c))) as [H1 H2]; [by rewrite Hsame|].
      split; [done|]. by rewrite <- Hsame.
    + destruct (IH (fst (unscramble c))) as [H1 H2].
      { rewrite Hdecay. apply decayed_nonneg. }
      split; [done|].
      etrans; [exact H2|]. rewrite Hdecay. by apply decayed_below.
Qed.

Lemma decay_floor_monotone_witness :
  Forall (λ e, 0 ≤ e) [200; 16; 0]
  ∧ scramble (fst (unscramble
      {| message := ""; scramble := [200; 16; 0]; frame := Some 4 |}))
    = [185; 1; 0]
  ∧ Forall (λ e, 0 ≤ e) (scramble (fst (unscramble_calls 9
      {| message := ""; scramble := [200; 16; 0]; frame := Some 4 |})))
  ∧ Forall2 Z.le (scramble (fst (unscramble_calls 9
      {| message := ""; scramble := [200; 16; 0]; frame := Some 4 |})))
      [200; 16; 0].
Proof.
  assert (Hnonneg : Forall (λ e, 0 ≤ e) [200; 16; 0]).
  { repeat constructor; lia. }
  pose proof (decay_floor_monotone
    {| message := ""; scramble := [200; 16; 0]; frame := Some 4 |} Hnonneg)
    as [Htick Hcalls].
  split; [exact Hnonneg|].
  split; [exact (Htick 4 eq_refl ltac:(lia))|].
  exact (Hcalls 9%nat).
Defined.

(** ** Length of the buffer *)

Section Length.

Variable ADDRESS_LENGTH : nat.

Lemma unscramble_length (c : component) :
  length (scramble (fst (unscramble c))) = length (scramble c).
Proof.
  destruct (unscramble_scramble c) as [-> | ->]; [done|].
  by rewrite length_fmap.
Qed.

Lemma run_callbacks_length (n requested : nat) (c : component) :
  length (scramble (fst (run_callbacks n c requested))) = length (scramble c).
Proof.
  revert c requested. induction n as [|n IH]; intros c requested; [done|].
  cbn [run_callbacks].
  pose proof (unscramble_length c) as Hlen.
  destruct (unscramble c) as [c' again]. rewrite IH. exact Hlen.
Qed.

Lemma receiveProps_length (g g' : bool) (entropy : nat → Z) (c : component) :
  length (scramble c) = ADDRESS_LENGTH →
  length (scramble (fst (componentWillReceiveProps ADDRESS_LENGTH g g' entropy c)))
  = ADDRESS_LENGTH.
Proof.
  intros Hlen. unfold componentWillReceiveProps.
  destruct (g && negb g'); [|done].
  destruct (unscramble _) as [c2 requested]. simpl.
  apply randomBytes_length.
Qed.

Lemma handle_length (s : component * nat) (ev : event) :
  length (scramble (fst s)) = ADDRESS_LENGTH →
  length (scramble (fst (handle ADDRESS_LENGTH s ev))) = ADDRESS_LENGTH.
Proof.
  intros Hlen. destruct ev as [g g' entropy| |value|]; simpl.
  - pose proof (receiveProps_length g g' entropy (fst s) Hlen) as H.
    by destruct (componentWillReceiveProps _ _ _ _ _).
  - unfold display_frame. by rewrite run_callbacks_length.
  - done.
  - done.
Qed.

(** C7.  The buffer has [ADDRESS_LENGTH] entries when the component is
    created, after the re-seeding of [componentWillReceiveProps], after any
    [unscramble] call (a decay tick keeps the length), and so after every
    sequence of events in the life of a mounted component. *)
Theorem scramble_length_invariant (evs : list event) :
  length (scramble (initial ADDRESS_LENGTH)) = ADDRESS_LENGTH
  ∧ (∀ entropy c,
       length (scramble (fst (componentWillReceiveProps ADDRESS_LENGTH
                                true false entropy c))) = ADDRESS_LENGTH)
  ∧ (∀ c, length (scramble (fst (unscramble c))) = length (scramble c))
  ∧ length (scramble (fst (run_events ADDRESS_LENGTH evs
                             (initial ADDRESS_LENGTH, 0%nat)))) = ADDRESS_LENGTH.
Proof.
  assert (Hinit : length (scramble (initial ADDRESS_LENGTH)) = ADDRESS_LENGTH).
  { apply length_replicate. }
  split; [exact Hinit|]. split; [|split].
  - intros entropy c. unfold componentWillReceiveProps. cbn [andb negb].
    destruct (unscramble (set_frame (Some 0) c)) as [c2 requested].
    apply randomBytes_length.
  - apply unscramble_length.
  - unfold run_events.
    assert (Hgen : ∀ s, length (scramble (fst s)) = ADDRESS_LENGTH →
              length (scramble (fst (foldl (handle ADDRESS_LENGTH) s evs)))
              = ADDRESS_LENGTH).
    { induction evs as [|ev evs IH]; intros s Hs; [done|].
      simpl. apply IH. by apply handle_length. }
    by apply Hgen.
Qed.

End Length.

(** ** Rendering *)

Section Render.

Variable byteToChar : Z → string.

(** [byteToChar] yields a character for a positive magnitude. *)
Hypothesis byteToChar_char : ∀ m, 0 < m → byteToChar m ≠ "".

Lemma js_or_char (s char : string) : s ≠ "" → js_or (Some s) char = s.
Proof. by destruct s. Qed.

Lemma scrambleChar_at_zeros (scr : list Z) (index : nat) :
  Forall (λ e, e = 0) scr → scrambleChar_at byteToChar scr index = None.
Proof.
  intros Hzero. unfold scrambleChar_at.
  destruct (scr !! index) as [m|] eqn:Hm; [|done].
  rewrite Forall_lookup in Hzero. rewrite (Hzero _ _ Hm). done.
Qed.

(** C8.  At a position of the address, a magnitude above 0 renders
    [byteToChar] of that magnitude and a magnitude of 0 renders the
    character of the address; a buffer of zeros renders the address
    itself. *)
Theorem render_position (address : string) (scr : list Z)
    (index : nat) (char : string) :
  split_chars address !! index = Some char →
  (∀ m, scr !! index = Some m → 0 < m →
        render_address byteToChar address scr !! index = Some (byteToChar m))
  ∧ (scr !! index = Some 0 →
     render_address byteToChar address scr !! index = Some char)
  ∧ (Forall (λ e, e = 0) scr →
     render_address byteToChar address scr = split_chars address).
Proof.
  intros Hchar. unfold render_address. split; [|split].
  - intros m Hm Hpos. rewrite list_lookup_imap, Hchar. simpl.
    unfold scrambleChar_at. rewrite Hm.
    rewrite bool_decide_eq_true_2 by lia.
    f_equal. apply js_or_char. by apply byteToChar_char.
  - intros Hm. rewrite list_lookup_imap, Hchar. simpl.
    unfold scrambleChar_at. rewrite Hm. done.
  - intros Hzero. apply list_eq. intros i.
    rewrite list_lookup_imap.
    destruct (split_chars address !! i) as [ch|]; [|done]. simpl.
    by rewrite scrambleChar_at_zeros.
Qed.

End Render.

Lemma tryte_of_byte_char (m : Z) : 0 < m → tryte_of_byte m ≠ "".
Proof.
  intros _. unfold tryte_of_byte.
  pose proof (Z.mod_pos_bound m 27 ltac:(lia)) as Hrange.
  assert (Hlt : (Z.to_nat (m `mod` 27) < 27)%nat) by lia.
  generalize dependent (Z.to_nat (m `mod` 27)). intros n Hlt.
  do 27 (destruct n as [|n]; [discriminate|]). lia.
Qed.

Lemma render_position_witness :
  split_chars "AB9" !! 1%nat = Some "B"
  ∧ (∀ m, [0; 28; 0] !! 1%nat = Some m → 0 < m →
          render_address tryte_of_byte "AB9" [0; 28; 0] !! 1%nat
          = Some (tryte_of_byte m))
  ∧ ([0; 28; 0] !! 1%nat = Some 0 →
     render_address tryte_of_byte "AB9" [0; 28; 0] !! 1%nat = Some "B")
  ∧ (Forall (λ e, e = 0) [0; 28; 0] →
     render_address tryte_of_byte "AB9" [0; 28; 0] = split_chars "AB9").
Proof.
  split; [reflexivity|].
  apply (render_position tryte_of_byte tryte_of_byte_char "AB9" [0; 28; 0] 1 "B").
  reflexivity.
Defined.

(** ** Requesting a new address *)

Section Orchestrator.

Variable SeedStore : string → string → string → metaInfo → completion seedStore.

(** C4.  While the wallet is syncing or transitioning, [onGeneratePress]
    makes one call only, the "please wait" error alert: no seed store is
    constructed, no address is generated, the component is unchanged. *)
Theorem generate_blocked (p : props) (c : component) :
  isSyncing p = true ∨ isTransitioning p = true →
  onGeneratePress SeedStore p c
  = (c, [GenerateAlert "error" (t p "global:pleaseWait")
                       (t p "global:pleaseWaitExplanation")], Returns ())
  ∧ filter is_alert (snd (fst (onGeneratePress SeedStore p c)))
    = [GenerateAlert "error" (t p "global:pleaseWait")
                     (t p "global:pleaseWaitExplanation")]
  ∧ filter is_construction (snd (fst (onGeneratePress SeedStore p c))) = []
  ∧ filter is_generation (snd (fst (onGeneratePress SeedStore p c))) = [].
Proof.
  intros Hbusy.
  assert (Hguard : isSyncing p || isTransitioning p = true).
  { destruct Hbusy as [-> | ->]; [done|]. by rewrite orb_true_r. }
  unfold onGeneratePress. rewrite Hguard. done.
Qed.

(** ** Validating the current address *)

Lemma validateAdress_calls (p : props) (c : component) (store : seedStore) :
  SeedStore (type (accountMeta p)) (password p) (accountName p) (accountMeta p)
  = Returns store →
  snd (fst (validateAdress SeedStore p c))
  = NewSeedStore (type (accountMeta p)) (password p) (accountName p)
      :: match validate_try p store with
         | (calls, Returns _) => calls
         | (calls, Throws err) =>
             calls ++ [ConsoleLog (LogError err); HistoryPush "/wallet/"]
         end.
Proof.
  intros Hstore. unfold validateAdress. rewrite Hstore.
  by destruct (validate_try p store) as [calls [[]|err]].
Qed.

(** C5, as amended.  With the seed store constructed and the index of the
    last address computed, [validateAdress] has four outcomes: on [false],
    a navigation to ['/wallet/'] and no alert; on a value with a
    notification, one success alert with the translated title and content
    and no navigation; on an exception, a navigation to ['/wallet/'] and no
    alert; on any other truthy value, neither an alert nor a navigation. *)
Theorem validate_outcomes (p : props) (c : component)
    (store : seedStore) (index : Z) :
  SeedStore (type (accountMeta p)) (password p) (accountName p) (accountMeta p)
  = Returns store →
  last_address_index (account p) = Returns index →
  let calls := snd (fst (validateAdress SeedStore p c)) in
  (validateAddress store index = Returns (VBoolean false) →
   navigations calls = [HistoryPush "/wallet/"] ∧ alerts calls = [])
  ∧ (∀ note, validateAddress store index = Returns (VObject (Some note)) →
       alerts calls = [GenerateAlert "success" (t p (title note))
                                     (t p (content note))]
       ∧ navigations calls = [])
  ∧ (∀ err, validateAddress store index = Throws err →
       navigations calls = [HistoryPush "/wallet/"] ∧ alerts calls = [])
  ∧ (∀ v, validateAddress store index = Returns v →
       truthy v = true → get_notification v = None →
       alerts calls = [] ∧ navigations calls = [])
  ∧ fst (fst (validateAdress SeedStore p c)) = c.
Proof.
  intros Hstore Hindex calls. subst calls.
  rewrite (validateAdress_calls p c store Hstore).
  unfold validate_try. rewrite Hindex.
  split; [|split; [|split; [|split]]].
  - intros ->. done.
  - intros note ->. done.
  - intros err ->. done.
  - intros v -> Htruthy Hnote. rewrite Htruthy, Hnote. done.
  - unfold validateAdress. rewrite Hstore.
    by destruct (validate_try p store) as [? [[]|?]].
Qed.

End Orchestrator.

Lemma generate_blocked_witness :
  (true = true ∨ false = true)
  ∧ filter is_alert (snd (fst (onGeneratePress
      (sample_SeedStore (Returns (VBoolean true)))
      (sample_props true false) sample_component)))
    = [GenerateAlert "error" "global:pleaseWait" "global:pleaseWaitExplanation"]
  ∧ filter is_generation (snd (fst (onGeneratePress
      (sample_SeedStore (Returns (VBoolean true)))
      (sample_props true false) sample_component))) = [].
Proof.
  split; [by left|].
  pose proof (generate_blocked (sample_SeedStore (Returns (VBoolean true)))
                (sample_props true false) sample_component
                (or_introl eq_refl)) as (_ & Halert & _ & Hgen).
  split; [exact Halert | exact Hgen].
Defined.

Lemma validate_outcomes_witness :
  let SeedStore := sample_SeedStore (Returns (VBoolean false)) in
  let calls := snd (fst (validateAdress SeedStore (sample_props false false)
                           sample_component)) in
  last_address_index (account (sample_props false false)) = Returns 1
  ∧ navigations calls = [HistoryPush "/wallet/"] ∧ alerts calls = [].
Proof.
  split; [reflexivity|].
  apply (validate_outcomes (sample_SeedStore (Returns (VBoolean false)))
           (sample_props false false) sample_component
           (sample_store (Returns (VBoolean false))) 1 eq_refl eq_refl).
  reflexivity.
Defined.

(** C5, as stated, fails: when [validateAddress] answers [true], the run
    is none of the three outcomes, for it neither navigates nor alerts. *)
Lemma valid_without_notification_is_no_listed_outcome :
  let answer := Returns (VBoolean true) in
  let calls := snd (fst (validateAdress (sample_SeedStore answer)
                           (sample_props false false) sample_component)) in
  navigations calls = [] ∧ alerts calls = []
  ∧ ¬ one_of_three_outcomes (sample_props false false) answer calls.
Proof.
  split; [reflexivity|]. split; [reflexivity|].
  intros [(Hfalse & _) | [(note & Hnote & _) | (err & Herr & _)]];
    discriminate.
Qed.

(** ** How long a reveal lasts *)

Lemma decayed_bound (n : nat) (l : list Z) :
  Forall (λ e, 0 ≤ e ≤ 15 * Z.of_nat (S n)) l →
  Forall (λ e, 0 ≤ e ≤ 15 * Z.of_nat n) (decayed <$> l).
Proof.
  intros Hl. apply Forall_fmap. eapply Forall_impl; [exact Hl|].
  intros e He. simpl in *. unfold decayed. lia.
Qed.

Lemma bound_nonneg (n : nat) (l : list Z) :
  Forall (λ e, 0 ≤ e ≤ 15 * Z.of_nat n) l → Forall (λ e, 0 ≤ e) l.
Proof.
  intros Hl. eapply Forall_impl; [exact Hl|]. intros e He. simpl in *. lia.
Qed.

Lemma zeros_replicate (l : list Z) :
  Forall (λ e, e = 0) l → l = replicate (length l) 0.
Proof. induction 1 as [|e l -> _ IH]; simpl; [done|]. by rewrite <- IH. Qed.

Lemma decayed_of_zeros (l : list Z) :
  Forall (λ e, e = 0) l → Forall (λ e, e = 0) (decayed <$> l).
Proof.
  intros Hl. apply Forall_fmap. eapply Forall_impl; [exact Hl|].
  intros e ->. reflexivity.
Qed.

Lemma decayed_exceeds (n : nat) (l : list Z) :
  Exists (λ e, 15 * Z.of_nat (S n) < e) l →
  Exists (λ e, 15 * Z.of_nat n < e) (decayed <$> l).
Proof.
  intros Hl. apply Exists_fmap. eapply Exists_impl; [exact Hl|].
  intros e He. simpl in *. unfold decayed. lia.
Qed.

(** While some magnitude exceeds [15 * n], the loop of a single callback
    is alive for the first [4 * (n + 2)] frames. *)
Lemma single_loop_alive (n : nat) (m : string) (buf : list Z) (k : nat) :
  Forall (λ e, 0 ≤ e) buf →
  Exists (λ e, 15 * Z.of_nat n < e) buf →
  (k < 4 * (n + 2))%nat →
  snd (display_frames k
         ({| message := m; scramble := buf; frame := Some 1 |}, 1%nat)) = 1%nat.
Proof.
  revert buf k. induction n as [|n IH]; intros buf k Hnonneg Hbig Hk.
  - destruct (decide (k < 4)%nat) as [Hk4|Hk4].
    { by rewrite display_frames_to_tick by lia. }
    replace k with (4 + (k - 4))%nat by lia.
    rewrite display_frames_add, display_frames_tick.
    rewrite bool_decide_eq_false_2.
    2:{ assert (0 < total buf); [|lia]. apply total_positive; [done|].
        eapply Exists_impl; [exact Hbig|]. intros e He. simpl in *. lia. }
    by rewrite display_frames_to_tick by lia.
  - destruct (decide (k < 4)%nat) as [Hk4|Hk4].
    { by rewrite display_frames_to_tick by lia. }
    replace k with (4 + (k - 4))%nat by lia.
    rewrite display_frames_add, display_frames_tick.
    rewrite bool_decide_eq_false_2.
    2:{ assert (0 < total buf); [|lia]. apply total_positive; [done|].
        eapply Exists_impl; [exact Hbig|]. intros e He. simpl in *. lia. }
    apply IH; [apply decayed_nonneg | by apply decayed_exceeds | lia].
Qed.

(** With every magnitude at most [15 * n], the loop of a single callback
    has stopped on a buffer of zeros after [4 * (n + 1)] frames. *)
Lemma single_loop_done (n : nat) (m : string) (buf : list Z) (k : nat) :
  Forall (λ e, 0 ≤ e ≤ 15 * Z.of_nat n) buf →
  (4 * (n + 1) ≤ k)%nat →
  display_frames k
    ({| message := m; scramble := buf; frame := Some 1 |}, 1%nat)
  = ({| message := m; scramble := replicate (length buf) 0; frame := Some 1 |},
     0%nat).
Proof.
  revert buf k. induction n as [|n IH]; intros buf k Hbound Hk.
  - assert (Hzero : Forall (λ e, e = 0) buf).
    { eapply Forall_impl; [exact Hbound|]. intros e He. simpl in *. lia. }
    replace k with (4 + (k - 4))%nat by lia.
    rewrite display_frames_add, display_frames_tick.
    rewrite bool_decide_eq_true_2
      by (apply total_zero_iff; [by eapply bound_nonneg|done]).
    rewrite display_frames_idle.
    rewrite (zeros_replicate _ (decayed_of_zeros _ Hzero)).
    by rewrite length_fmap.
  - replace k with (4 + (k - 4))%nat by lia.
    rewrite display_frames_add, display_frames_tick.
    destruct (bool_decide (total buf = 0)) eqn:Hsum.
    + apply bool_decide_eq_true_1 in Hsum.
      apply total_zero_iff in Hsum; [|by eapply bound_nonneg].
      rewrite display_frames_idle.
      rewrite (zeros_replicate _ (decayed_of_zeros _ Hsum)).
      by rewrite length_fmap.
    + rewrite IH; [|by apply decayed_bound|lia].
      by rewrite length_fmap.
Qed.

Section Duration.

Variable ADDRESS_LENGTH : nat.

(** A buffer whose largest magnitude lies above [15 * n] and at most at
    [15 * (n + 1)] takes [n + 1] decay ticks to reach zero and one more to
    stop: after [start], a callback is registered for exactly the first
    [4 * (n + 2)] display frames, and the buffer is all zero from then on. *)
Theorem reveal_duration (entropy : nat → Z) (c : component) (n k : nat) :
  Forall (λ e, e ≤ 15 * Z.of_nat (S n)) (randomBytes entropy ADDRESS_LENGTH) →
  Exists (λ e, 15 * Z.of_nat n < e) (randomBytes entropy ADDRESS_LENGTH) →
  snd (display_frames k (start ADDRESS_LENGTH entropy c))
  = (if decide (k < 4 * (n + 2))%nat then 1%nat else 0%nat)
  ∧ ((4 * (n + 2) ≤ k)%nat →
     scramble (fst (display_frames k (start ADDRESS_LENGTH entropy c)))
     = replicate ADDRESS_LENGTH 0).
Proof.
  intros Hsmall Hbig. rewrite start_spec.
  assert (Hnonneg : Forall (λ e, 0 ≤ e) (randomBytes entropy ADDRESS_LENGTH)).
  { eapply Forall_impl; [apply randomBytes_bytes|]. intros e He. simpl in *. lia. }
  assert (Hbound : Forall (λ e, 0 ≤ e ≤ 15 * Z.of_nat (S n))
                     (randomBytes entropy ADDRESS_LENGTH)).
  { apply Forall_and. by split. }
  destruct (decide (k < 4 * (n + 2))%nat) as [Hk|Hk].
  - split; [|lia]. by apply (single_loop_alive n).
  - rewrite (single_loop_done (S n)) by (done || lia).
    split; [done|]. intros _. simpl. by rewrite randomBytes_length.
Qed.

End Duration.

(** Eighty-one magnitudes between 40 and 44: three decay ticks bring them
    to zero, and the loop lasts sixteen frames. *)
Lemma forties_bound :
  Forall (λ e, e ≤ 15 * Z.of_nat 3)
         (randomBytes (λ i, 40 + Z.of_nat (i `mod` 5)) 81).
Proof.
  apply Forall_forall. intros e He.
  apply list_elem_of_fmap in He as (i & -> & _).
  pose proof (Nat.mod_upper_bound i 5 ltac:(lia)).
  rewrite Z.mod_small by lia. lia.
Qed.

Lemma forties_exceed :
  Exists (λ e, 15 * Z.of_nat 2 < e)
         (randomBytes (λ i, 40 + Z.of_nat (i `mod` 5)) 81).
Proof. apply Exists_cons_hd. vm_compute. reflexivity. Qed.

Lemma reveal_duration_witness :
  Forall (λ e, e ≤ 15 * Z.of_nat 3)
         (randomBytes (λ i, 40 + Z.of_nat (i `mod` 5)) 81)
  ∧ Exists (λ e, 15 * Z.of_nat 2 < e)
           (randomBytes (λ i, 40 + Z.of_nat (i `mod` 5)) 81)
  ∧ snd (display_frames 15
           (start 81 (λ i, 40 + Z.of_nat (i `mod` 5)) (initial 81))) = 1%nat.
Proof.
  split; [exact forties_bound|]. split; [exact forties_exceed|].
  exact (proj1 (reveal_duration 81 (λ i, 40 + Z.of_nat (i `mod` 5))
                  (initial 81) 2 15 forties_bound forties_exceed)).
Defined.

(** ** Termination with several callbacks registered *)

Lemma calls_to_tick_pos (f : Z) : 0 ≤ f → (1 ≤ calls_to_tick f)%nat.
Proof. intros Hf. unfold calls_to_tick. case_bool_decide; lia. Qed.

(** One call uses up one unit of [work]: the callback that made it is alive
    afterwards only if it asked for another frame, and a call that does not
    ask leaves a buffer of zeros. *)
Lemma unscramble_work (c : component) (f : Z) (n : nat) :
  frame c = Some f → 0 ≤ f →
  Forall (λ e, 0 ≤ e ≤ 15 * Z.of_nat n) (scramble c) →
  ∃ f' n',
    frame (fst (unscramble c)) = Some f' ∧ 0 ≤ f'
    ∧ Forall (λ e, 0 ≤ e ≤ 15 * Z.of_nat n') (scramble (fst (unscramble c)))
    ∧ (∀ rest, (work f' n' (if snd (unscramble c) then S rest else rest)
                < work f n (S rest))%nat)
    ∧ (snd (unscramble c) = false →
       Forall (λ e, e = 0) (scramble (fst (unscramble c)))).
Proof.
  intros Hf Hpos Hbound.
  destruct (decide (f ≤ 3)) as [Hwait|Htick].
  - rewrite (unscramble_wait c f Hf) by lia. cbn [fst snd].
    exists (f + 1), n.
    split; [done|]. split; [lia|]. split; [done|]. split; [|done].
    intros rest. unfold work, calls_to_tick.
    repeat case_bool_decide; lia.
  - rewrite (unscramble_tick c f Hf) by lia. cbn [fst snd scramble frame].
    destruct (bool_decide (total (scramble c) = 0)) eqn:Hsum; cbn [negb].
    + apply bool_decide_eq_true_1 in Hsum.
      apply total_zero_iff in Hsum; [|by eapply bound_nonneg].
      exists 1, n.
      split; [done|]. split; [lia|]. split; [|split].
      * eapply Forall_impl; [exact (decayed_of_zeros _ Hsum)|].
        intros e He. simpl in *. lia.
      * intros rest. unfold work, calls_to_tick.
        rewrite (bool_decide_eq_true_2 (3 < f)) by lia.
        destruct rest; [lia|].
        rewrite (bool_decide_eq_false_2 (3 < 1)) by lia. lia.
      * intros _. by apply decayed_of_zeros.
    + apply bool_decide_eq_false_1 in Hsum.
      destruct n as [|n].
      { exfalso. apply Hsum. apply total_zero_iff; [by eapply bound_nonneg|].
        eapply Forall_impl; [exact Hbound|]. intros e He. simpl in *. lia. }
      exists 1, n.
      split; [done|]. split; [lia|]. split; [by apply decayed_bound|].
      split; [|done].
      intros rest. unfold work, calls_to_tick.
      rewrite (bool_decide_eq_true_2 (3 < f)) by lia.
      rewrite (bool_decide_eq_false_2 (3 < 1)) by lia. lia.
Qed.

(** The callbacks of one display frame. *)
Lemma run_callbacks_work (r : nat) (c : component) (q : nat) (f : Z) (n : nat) :
  frame c = Some f → 0 ≤ f →
  Forall (λ e, 0 ≤ e ≤ 15 * Z.of_nat n) (scramble c) →
  ∃ f' n',
    frame (fst (run_callbacks r c q)) = Some f' ∧ 0 ≤ f'
    ∧ Forall (λ e, 0 ≤ e ≤ 15 * Z.of_nat n')
             (scramble (fst (run_callbacks r c q)))
    ∧ (work f' n' (snd (run_callbacks r c q)) + r ≤ work f n (r + q))%nat
    ∧ ((1 ≤ r)%nat → snd (run_callbacks r c q) = 0%nat →
       Forall (λ e, e = 0) (scramble (fst (run_callbacks r c q)))).
Proof.
  revert c q f n. induction r as [|r IH]; intros c q f n Hf Hpos Hbound.
  - exists f, n. cbn [run_callbacks fst snd].
    split; [done|]. split; [done|]. split; [done|].
    rewrite Nat.add_0_l. split; lia.
  - cbn [run_callbacks].
    destruct (unscramble_work c f n Hf Hpos Hbound)
      as (f1 & n1 & Hf1 & Hpos1 & Hbound1 & Hwork1 & Hzero1).
    destruct (unscramble c) as [c1 again]. simpl in *.
    destruct (IH c1 (if again then S q else q) f1 n1 Hf1 Hpos1 Hbound1)
      as (f' & n' & Hf' & Hpos' & Hbound' & Hwork' & Hzero').
    exists f', n'.
    split; [done|]. split; [done|]. split; [done|]. split.
    + specialize (Hwork1 (r + q)%nat).
      replace (r + (if again then S q else q))%nat
        with (if again then S (r + q) else (r + q)%nat) in Hwork'
        by (destruct again; lia).
      lia.
    + intros _ Hnone. destruct r as [|r].
      * simpl in *. destruct again; [lia|]. by apply Hzero1.
      * apply Hzero'; [lia|done].
Qed.

(** Enough display frames retire every callback. *)
Lemma display_frames_work (k : nat) (c : component) (p : nat) (f : Z) (n : nat) :
  frame c = Some f → 0 ≤ f →
  Forall (λ e, 0 ≤ e ≤ 15 * Z.of_nat n) (scramble c) →
  (1 ≤ p)%nat → (work f n p ≤ k)%nat →
  snd (display_frames k (c, p)) = 0%nat
  ∧ Forall (λ e, e = 0) (scramble (fst (display_frames k (c, p)))).
Proof.
  revert c p f n. induction k as [|k IH]; intros c p f n Hf Hpos Hbound Hp Hk.
  - destruct p as [|p]; [lia|]. pose proof (calls_to_tick_pos f Hpos).
    simpl in Hk. lia.
  - cbn [display_frames]. unfold display_frame. cbn [fst snd].
    destruct (run_callbacks_work p c 0 f n Hf Hpos Hbound)
      as (f' & n' & Hf' & Hpos' & Hbound' & Hwork' & Hzero').
    destruct (run_callbacks p c 0) as [c' q'] eqn:Hrun. simpl in *.
    rewrite Nat.add_0_r in Hwork'.
    destruct q' as [|q'].
    + rewrite display_frames_idle. simpl. split; [done|]. by apply Hzero'.
    + apply (IH c' (S q') f' n'); [done|done|done|lia|lia].
Qed.

Lemma display_frames_length (k : nat) (s : component * nat) :
  length (scramble (fst (display_frames k s))) = length (scramble (fst s)).
Proof.
  revert s. induction k as [|k IH]; intros s; [done|].
  cbn [display_frames]. rewrite IH. unfold display_frame.
  apply run_callbacks_length.
Qed.

Lemma render_zeros (byteToChar : Z → string) (address : string) (scr : list Z) :
  Forall (λ e, e = 0) scr →
  render_address byteToChar address scr = split_chars address.
Proof.
  intros Hzero. unfold render_address. apply list_eq. intros i.
  rewrite list_lookup_imap.
  destruct (split_chars address !! i) as [ch|]; [|done]. simpl.
  by rewrite scrambleChar_at_zeros.
Qed.

Section Termination.

Variable ADDRESS_LENGTH : nat.
Variable byteToChar : Z → string.

(** A reveal always ends.  Whatever the component was doing when the new
    address arrived, with [p] callbacks still registered from earlier
    reveals, [4 * (18 + p)] display frames later no callback is registered,
    the buffer is all zero and the address is rendered as it is. *)
Theorem reveal_terminates (entropy : nat → Z) (c : component) (p k : nat)
    (address : string) :
  (4 * (18 + p) ≤ k)%nat →
  snd (display_frames k
         (handle ADDRESS_LENGTH (c, p) (ReceiveProps true false entropy)))
  = 0%nat
  ∧ scramble (fst (display_frames k
         (handle ADDRESS_LENGTH (c, p) (ReceiveProps true false entropy))))
    = replicate ADDRESS_LENGTH 0
  ∧ render_address byteToChar address
      (scramble (fst (display_frames k
         (handle ADDRESS_LENGTH (c, p) (ReceiveProps true false entropy)))))
    = split_chars address.
Proof.
  intros Hk.
  assert (Hstart : handle ADDRESS_LENGTH (c, p) (ReceiveProps true false entropy)
                   = ({| message := message c;
                         scramble := randomBytes entropy ADDRESS_LENGTH;
                         frame := Some 1 |}, S p)) by reflexivity.
  rewrite Hstart.
  set (c1 := {| message := message c;
                scramble := randomBytes entropy ADDRESS_LENGTH;
                frame := Some 1 |}).
  destruct (display_frames_work k c1 (S p) 1 17) as [Hnone Hzero].
  - reflexivity.
  - lia.
  - eapply Forall_impl; [apply randomBytes_bytes|]. intros e He. simpl in *. lia.
  - lia.
  - unfold work, calls_to_tick. rewrite bool_decide_eq_false_2 by lia. lia.
  - split; [exact Hnone|]. split.
    + rewrite (zeros_replicate _ Hzero), display_frames_length. simpl.
      by rewrite randomBytes_length.
    + by apply render_zeros.
Qed.

End Termination.

Lemma reveal_terminates_witness :
  (4 * (18 + 2) ≤ 80)%nat
  ∧ snd (display_frames 80
           (handle 81 ({| message := ""; scramble := replicate 81 9;
                          frame := Some 3 |}, 2%nat)
                   (ReceiveProps true false (λ i, Z.of_nat (7 * i)))))
    = 0%nat.
Proof.
  split; [lia|].
  apply (reveal_terminates 81 tryte_of_byte (λ i, Z.of_nat (7 * i))
           {| message := ""; scramble := replicate 81 9; frame := Some 3 |}
           2 80 "A").
  lia.
Defined.

(** ** The other paths of the orchestrator *)

Section Paths.

Variable SeedStore : string → string → string → metaInfo → completion seedStore.

Abbreviation constructed p :=
  (SeedStore (type (accountMeta p)) (password p) (accountName p) (accountMeta p)).

Ltac run_filters :=
  cbv [alerts navigations validations generations filter list_filter];
  simpl.

(** [onGeneratePress] on every input: the component is untouched; it never
    both alerts and generates; a new address is requested exactly when
    neither busy flag is set and the seed store could be constructed, and
    then once, with that store and the current account; the promise rejects
    exactly when the construction threw, with its error. *)
Theorem generate_attempt (p : props) (c : component) :
  fst (fst (onGeneratePress SeedStore p c)) = c
  ∧ (length (alerts (snd (fst (onGeneratePress SeedStore p c))))
     + length (generations (snd (fst (onGeneratePress SeedStore p c)))) ≤ 1)%nat
  ∧ (∀ e, e ∈ generations (snd (fst (onGeneratePress SeedStore p c))) ↔
       isSyncing p = false ∧ isTransitioning p = false
       ∧ ∃ store, constructed p = Returns store
                  ∧ e = GenerateNewAddress store (accountName p) (account p))
  ∧ (∀ err, snd (onGeneratePress SeedStore p c) = Throws err ↔
       isSyncing p = false ∧ isTransitioning p = false
       ∧ constructed p = Throws err).
Proof.
  unfold onGeneratePress.
  destruct (isSyncing p), (isTransitioning p); simpl; run_filters;
    try (split; [done|]; split; [lia|]; split;
         [intros e; split;
            [intros He; by apply elem_of_nil in He
            |intros (? & ? & _); discriminate]
         |intros err; split; [discriminate|intros (? & ? & _); discriminate]]).
  destruct (constructed p) as [store|err0]; run_filters.
  - split; [done|]. split; [lia|]. split.
    + intros e. rewrite list_elem_of_singleton. split.
      * intros ->. split; [done|]. split; [done|]. by exists store.
      * intros (_ & _ & store' & Hstore & ->). by injection Hstore as ->.
    + intros err. split; [discriminate|]. intros (_ & _ & ?). discriminate.
  - split; [done|]. split; [lia|]. split.
    + intros e. split.
      * intros He. by apply elem_of_nil in He.
      * intros (_ & _ & store & ? & _). discriminate.
    + intros err. split.
      * intros [= ->]. done.
      * intros (_ & _ & [= ->]). done.
Qed.

(** The seed store of [validateAdress] is constructed before the [try]:
    when the constructor throws, the promise rejects with its error, the
    seed store is never asked, and the screen neither navigates nor
    alerts. *)
Theorem validate_construction_throws (p : props) (c : component) (err : string) :
  constructed p = Throws err →
  snd (validateAdress SeedStore p c) = Throws err
  ∧ navigations (snd (fst (validateAdress SeedStore p c))) = []
  ∧ alerts (snd (fst (validateAdress SeedStore p c))) = []
  ∧ validations (snd (fst (validateAdress SeedStore p c))) = []
  ∧ fst (fst (validateAdress SeedStore p c)) = c.
Proof. intros Hthrow. unfold validateAdress. rewrite Hthrow. done. Qed.


Lemma validate_try_cases (p : props) (store : seedStore) :
  (∃ calls, validate_try p store = (calls, Returns ())
            ∧ (length (alerts calls) + length (navigations calls) ≤ 1)%nat
            ∧ (∀ e, e ∈ navigations calls → e = HistoryPush "/wallet/")
            ∧ (∀ e, e ∈ alerts calls → ∃ h b, e = GenerateAlert "success" h b)
            ∧ generations calls = [])
  ∨ (∃ calls err, validate_try p store = (calls, Throws err)
                  ∧ alerts calls = [] ∧ navigations calls = []
                  ∧ generations calls = []).
Proof.
  unfold validate_try.
  destruct (last_address_index (account p)) as [index|err].
  2:{ right. by exists [], err. }
  destruct (validateAddress store index) as [valid|err].
  2:{ right. by exists [ValidateAddress index], err. }
  left. destruct (truthy valid); simpl.
  - destruct (get_notification valid) as [note|]; eexists;
      (split; [done|]); run_filters.
    + split; [lia|]. split; [|split; [|done]].
      * intros e He. by apply elem_of_nil in He.
      * intros e He. apply list_elem_of_singleton in He as ->. eauto.
    + split; [lia|]. split; [|split; [|done]].
      * intros e He. by apply elem_of_nil in He.
      * intros e He. by apply elem_of_nil in He.
  - eexists. split; [done|]. run_filters.
    split; [lia|]. split; [|split; [|done]].
    + intros e He. by apply list_elem_of_singleton in He as ->.
    + intros e He. by apply elem_of_nil in He.
Qed.

(** [validateAdress] on every input: the component is untouched, no new
    address is requested, and the screen does at most one thing: one
    navigation, always to ['/wallet/'], or one alert, always a success
    alert, never both. *)
Theorem validate_at_most_one_reaction (p : props) (c : component) :
  fst (fst (validateAdress SeedStore p c)) = c
  ∧ (length (alerts (snd (fst (validateAdress SeedStore p c))))
     + length (navigations (snd (fst (validateAdress SeedStore p c)))) ≤ 1)%nat
  ∧ (∀ e, e ∈ navigations (snd (fst (validateAdress SeedStore p c))) →
          e = HistoryPush "/wallet/")
  ∧ (∀ e, e ∈ alerts (snd (fst (validateAdress SeedStore p c))) →
          ∃ h b, e = GenerateAlert "success" h b)
  ∧ generations (snd (fst (validateAdress SeedStore p c))) = [].
Proof.
  unfold validateAdress.
  destruct (constructed p) as [store|err0]; simpl.
  2:{ run_filters. split; [done|]. split; [lia|].
      split; [intros e He; by apply elem_of_nil in He|].
      split; [intros e He; by apply elem_of_nil in He|done]. }
  destruct (validate_try_cases p store)
    as [(calls & -> & Hone & Hnav & Halert & Hgen)
       |(calls & err & -> & Halert & Hnav & Hgen)]; simpl.
  - done.
  - unfold alerts, navigations, generations in *.
    rewrite !filter_cons, !filter_app. simpl.
    rewrite Halert, Hnav, Hgen. simpl.
    split; [done|]. split; [lia|]. split; [|split; [|done]].
    + intros e He. by apply list_elem_of_singleton in He as ->.
    + intros e He. by apply elem_of_nil in He.
Qed.

(** The index [validateAdress] asks about is the number of addresses of the
    account less one, so [-1] for an account with none; an account without
    an [addresses] object is never asked about and the screen navigates
    away. *)
Theorem validate_asks_last_index (p : props) (c : component) (store : seedStore) :
  constructed p = Returns store →
  (∀ keys, addresses (account p) = Some keys →
     validations (snd (fst (validateAdress SeedStore p c)))
     = [ValidateAddress (Z.of_nat (length keys) - 1)])
  ∧ (addresses (account p) = None →
     validations (snd (fst (validateAdress SeedStore p c))) = []
     ∧ navigations (snd (fst (validateAdress SeedStore p c)))
       = [HistoryPush "/wallet/"]
     ∧ alerts (snd (fst (validateAdress SeedStore p c))) = []).
Proof.
  intros Hstore. unfold validateAdress, validate_try, last_address_index.
  rewrite Hstore. split.
  - intros keys ->.
    destruct (validateAddress store _) as [valid|err]; [|done].
    destruct (truthy valid); [|done]. simpl.
    by destruct (get_notification valid).
  - intros ->. done.
Qed.

(** With the seed store constructed and an index to ask about, the screen
    navigates away exactly when the answer is an exception or a falsy value
    ([false], [null], [undefined]), and alerts exactly when the answer is a
    truthy value with a notification. *)
Theorem validate_reaction_iff (p : props) (c : component)
    (store : seedStore) (index : Z) :
  constructed p = Returns store →
  last_address_index (account p) = Returns index →
  (navigations (snd (fst (validateAdress SeedStore p c))) ≠ [] ↔
     (∃ err, validateAddress store index = Throws err)
     ∨ (∃ v, validateAddress store index = Returns v ∧ truthy v = false))
  ∧ (alerts (snd (fst (validateAdress SeedStore p c))) ≠ [] ↔
     ∃ v note, validateAddress store index = Returns v ∧ truthy v = true
               ∧ get_notification v = Some note).
Proof.
  intros Hstore Hindex. unfold validateAdress, validate_try.
  rewrite Hstore, Hindex.
  destruct (validateAddress store index) as [valid|err].
  - destruct (truthy valid) eqn:Htruthy; simpl.
    + destruct (get_notification valid) as [note|] eqn:Hnote; simpl.
      * split; split; try done.
        -- intros [(err & ?)|(v & [= <-] & ?)]; congruence.
        -- intros _. by exists valid, note.
      * split; split; try done.
        -- intros [(err & ?)|(v & [= <-] & ?)]; congruence.
        -- intros (v & note & [= <-] & _ & ?). congruence.
    + split; split; try done.
      * intros _. right. by exists valid.
      * intros (v & note & [= <-] & ? & _). congruence.
  - simpl. split; split; try done.
    + intros _. left. by exists err.
    + intros (v & note & ? & _). discriminate.
Qed.

End Paths.

Lemma generate_attempt_sample :
  generations (snd (fst (onGeneratePress
     (sample_SeedStore (Returns (VBoolean true)))
     (sample_props false false) sample_component)))
  = [GenerateNewAddress (sample_store (Returns (VBoolean true))) "main"
       {| addresses := Some ["AAA"; "BBB"] |}].
Proof. reflexivity. Qed.

Lemma validate_construction_throws_witness :
  failing_SeedStore "locked" "keychain" "secret" "main" {| type := "keychain" |}
  = Throws "locked"
  ∧ snd (validateAdress (failing_SeedStore "locked")
           (sample_props false false) sample_component) = Throws "locked"
  ∧ navigations (snd (fst (validateAdress (failing_SeedStore "locked")
                             (sample_props false false) sample_component))) = [].
Proof.
  split; [reflexivity|].
  pose proof (validate_construction_throws (failing_SeedStore "locked")
                (sample_props false false) sample_component "locked" eq_refl)
    as (Hend & Hnav & _).
  split; [exact Hend | exact Hnav].
Defined.

Lemma validate_asks_last_index_witness :
  sample_SeedStore (Returns (VBoolean true))
    "keychain" "secret" "main" {| type := "keychain" |}
  = Returns (sample_store (Returns (VBoolean true)))
  ∧ validations (snd (fst (validateAdress
       (sample_SeedStore (Returns (VBoolean true)))
       (sample_props false false) sample_component)))
    = [ValidateAddress 1].
Proof.
  split; [reflexivity|].
  exact (proj1 (validate_asks_last_index
                  (sample_SeedStore (Returns (VBoolean true)))
                  (sample_props false false) sample_component
                  (sample_store (Returns (VBoolean true))) eq_refl)
               ["AAA"; "BBB"] eq_refl).
Defined.

Lemma validate_reaction_iff_witness :
  last_address_index (account (sample_props false false)) = Returns 1
  ∧ navigations (snd (fst (validateAdress (sample_SeedStore (Returns VNothing))
                             (sample_props false false) sample_component)))
    ≠ [].
Proof.
  split; [reflexivity|].
  apply (validate_reaction_iff (sample_SeedStore (Returns VNothing))
           (sample_props false false) sample_component
           (sample_store (Returns VNothing)) 1 eq_refl eq_refl).
  right. by exists VNothing.
Defined.

(** ** Rendering at the edges of the buffer *)

Lemma split_chars_length (s : string) :
  length (split_chars s) = String.length s.
Proof. induction s as [|a s IH]; simpl; [done|]. by rewrite IH. Qed.

(** The paragraph has one fragment per character of the address, whatever
    the length of the buffer; a position past the end of the buffer, or
    with a magnitude that is not positive, shows the character of the
    address; and every fragment is either that character or [byteToChar] of
    a positive magnitude at its position. *)
Theorem render_bounds (byteToChar : Z → string) (address : string)
    (scr : list Z) :
  length (render_address byteToChar address scr) = String.length address
  ∧ (∀ index char, split_chars address !! index = Some char →
       (length scr ≤ index)%nat →
       render_address byteToChar address scr !! index = Some char)
  ∧ (∀ index char m, split_chars address !! index = Some char →
       scr !! index = Some m → m ≤ 0 →
       render_address byteToChar address scr !! index = Some char)
  ∧ (∀ index char, split_chars address !! index = Some char →
       render_address byteToChar address scr !! index = Some char
       ∨ ∃ m, scr !! index = Some m ∧ 0 < m
              ∧ render_address byteToChar address scr !! index
                = Some (byteToChar m)).
Proof.
  unfold render_address. split; [|split; [|split]].
  - by rewrite length_imap, split_chars_length.
  - intros index char Hchar Hpast.
    rewrite list_lookup_imap, Hchar. simpl.
    unfold scrambleChar_at. by rewrite lookup_ge_None_2.
  - intros index char m Hchar Hm Hle.
    rewrite list_lookup_imap, Hchar. simpl.
    unfold scrambleChar_at. rewrite Hm.
    by rewrite bool_decide_eq_false_2 by lia.
  - intros index char Hchar.
    rewrite list_lookup_imap, Hchar. simpl.
    unfold scrambleChar_at.
    destruct (scr !! index) as [m|]; [|by left].
    case_bool_decide; [|by left].
    destruct (byteToChar m) as [|a rest] eqn:Hsub; [by left|].
    right. exists m. split; [done|]. split; [lia|]. by rewrite Hsub.
Qed.

(** ** What the events of a component keep *)

Lemma unscramble_keeps (c : component) :
  message (fst (unscramble c)) = message c
  ∧ (counter_in_range (frame c) → counter_in_range (frame (fst (unscramble c)))).
Proof.
  destruct (frame c) as [f|] eqn:Hf.
  - destruct (decide (f < 0)).
    { rewrite (unscramble_stopped c f Hf) by lia. simpl. by rewrite Hf. }
    destruct (decide (f ≤ 3)).
    { rewrite (unscramble_wait c f Hf) by lia. simpl. split; [done|lia]. }
    rewrite (unscramble_tick c f Hf) by lia. simpl. split; [done|lia].
  - rewrite unscramble_not_a_number by done. simpl. by rewrite Hf.
Qed.

Lemma run_callbacks_keeps (n requested : nat) (c : component) :
  message (fst (run_callbacks n c requested)) = message c
  ∧ (counter_in_range (frame c) →
     counter_in_range (frame (fst (run_callbacks n c requested)))).
Proof.
  revert c requested. induction n as [|n IH]; intros c requested; [done|].
  cbn [run_callbacks].
  destruct (unscramble_keeps c) as [Hmessage Hrange].
  destruct (unscramble c) as [c' again]. simpl in *.
  destruct (IH c' (if again then S requested else requested)) as [IHm IHr].
  split; [congruence|]. intros Hc. by apply IHr, Hrange.
Qed.

Section Events.

Variable ADDRESS_LENGTH : nat.

Lemma handle_keeps (s : component * nat) (ev : event) :
  message (fst (handle ADDRESS_LENGTH s ev))
  = match ev with MessageChange value => value | _ => message (fst s) end
  ∧ (counter_in_range (frame (fst s)) →
     counter_in_range (frame (fst (handle ADDRESS_LENGTH s ev)))).
Proof.
  destruct ev as [g g' entropy| |value|]; cbn [handle].
  - unfold componentWillReceiveProps.
    destruct (g && negb g'); [|done].
    destruct (unscramble_keeps (set_frame (Some 0) (fst s))) as [Hm _].
    rewrite (unscramble_wait _ 0) in * by (done || lia).
    simpl. split; [done|]. intros _. lia.
  - apply run_callbacks_keeps.
  - done.
  - simpl. split; [done|]. intros _. by left.
Qed.

(** Along every sequence of events from the creation of the component, the
    message is the one typed last: the animation, the arrival of addresses
    and the teardown never touch it.  And the frame counter is unset, [-1],
    or between 1 and 4: a decay tick is never more than four calls away. *)
Theorem events_keep_message_and_counter (evs : list event) :
  message (fst (run_events ADDRESS_LENGTH evs (initial ADDRESS_LENGTH, 0%nat)))
  = last_message evs
  ∧ counter_in_range
      (frame (fst (run_events ADDRESS_LENGTH evs
                     (initial ADDRESS_LENGTH, 0%nat)))).
Proof.
  unfold run_events, last_message.
  induction evs as [|ev evs [IHm IHr]] using rev_ind; [done|].
  rewrite !foldl_app. cbn [foldl].
  destruct (handle_keeps
              (foldl (handle ADDRESS_LENGTH) (initial ADDRESS_LENGTH, 0%nat) evs)
              ev) as [Hm Hr].
  split; [|by apply Hr].
  rewrite Hm, IHm. by destruct ev.
Qed.

End Events.

End ReceiveFacts.

(** * Facts about the market-data actions *)

Module MarketDataFacts.
Import MarketData.

(** ** The chart-data thunk *)

Section Thunks.

Variables (State Prices ChartData : Type).
Variable reducer : State → action ChartData → State.
Variable settings : State → option string.
Variable toLowerCase : string → string.
Variable fetchMarketChart : string → option Z → string → completion (option Prices).
Variable formatChartData : Prices → completion ChartData.

Abbreviation thunk := (getChartData settings toLowerCase fetchMarketChart formatChartData).

Lemma settle_no_dispatch (timeframe : string) (fetched : completion Prices)
    (chart : gmap string ChartData) :
  dispatched (fst (settle formatChartData timeframe fetched chart)) = [].
Proof.
  unfold settle. destruct fetched as [data|error]; [|done].
  by destruct (formatChartData data).
Qed.

Lemma dispatched_app (calls more : list (effect ChartData)) :
  dispatched (calls ++ more) = dispatched calls ++ dispatched more.
Proof. apply omap_app. Qed.

Lemma store_after_no_dispatch (st : State) (calls : list (effect ChartData)) :
  dispatched calls = [] → store_after reducer st calls = st.
Proof.
  unfold store_after, dispatched.
  induction calls as [|e calls IH]; intros Hnone; [done|].
  destruct e as [a|coin days currency|error]; simpl in *;
    [discriminate | by apply IH | by apply IH].
Qed.

Lemma continuations_no_dispatch (currency : string) (arrival : list string)
    (start : list (effect ChartData) * gmap string ChartData) :
  dispatched (fst start) = [] →
  dispatched (fst (foldl (λ so_far tf,
      let '(more, chart) :=
        settle formatChartData tf
          (snd (fetchChartData (ChartData := ChartData) fetchMarketChart currency tf))
          (snd so_far) in
      (fst so_far ++ more, chart)) start arrival)) = [].
Proof.
  revert start. induction arrival as [|tf arrival IH]; intros start Hstart;
    [done|].
  simpl. apply IH.
  pose proof (settle_no_dispatch tf
    (snd (fetchChartData (ChartData := ChartData) fetchMarketChart currency tf))
    (snd start)) as Hmore.
  destruct (settle _ _ _ _) as [more chart]. simpl in *.
  by rewrite dispatched_app, Hstart, Hmore.
Qed.

(** C9.  Whatever the state of the store, however the four requests
    settle and in whatever order, the thunk of [getChartData] dispatches no
    action: the store is in the same state after its calls. *)
Theorem getChartData_never_dispatches (arrival : list string) (st : State) :
  dispatched (trace (thunk arrival st)) = []
  ∧ store_after reducer st (trace (thunk arrival st)) = st.
Proof.
  assert (Hnone : dispatched (trace (thunk arrival st)) = []).
  { unfold getChartData. destruct (settings st) as [s|]; [|done].
    cbn [trace]. rewrite dispatched_app.
    rewrite continuations_no_dispatch by done. done. }
  split; [exact Hnone|]. by apply store_after_no_dispatch.
Qed.

End Thunks.

(** ** Fixed notation *)

Lemma forallb_Forall {A} (f : A → bool) (l : list A) :
  forallb f l = true ↔ Forall (λ a, f a = true) l.
Proof.
  induction l as [|a l IH]; simpl.
  - split; [constructor | done].
  - rewrite andb_true_iff, IH. split.
    + intros [Ha Hl]. by constructor.
    + intros Hall. by inversion Hall.
Qed.

Lemma string_of_uint_digits (d : Decimal.uint) :
  Forall (λ a, is_digit a = true)
         (list_ascii_of_string (NilEmpty.string_of_uint d)).
Proof. induction d; simpl; by constructor. Qed.

Lemma digits_are_digits (n : N) : Forall (λ a, is_digit a = true) (digits n).
Proof.
  unfold digits, NilZero.string_of_uint.
  destruct (N.to_uint n) eqn:Hd; try apply string_of_uint_digits.
  repeat constructor.
Qed.

(** The digits of [n], padded to three characters at least. *)
Lemma padded_digits (n : N) :
  let m := replicate (3 - length (digits n))%nat "0"%char ++ digits n in
  (3 ≤ length m)%nat ∧ Forall (λ a, is_digit a = true) m.
Proof.
  simpl. split.
  - rewrite length_app, length_replicate. lia.
  - apply Forall_app. split; [|apply digits_are_digits].
    apply Forall_replicate. reflexivity.
Qed.

Lemma fixed_point_two_decimals (n : N) :
  two_decimals_unsigned (fixed_point n) = true
  ∧ ∃ a l, fixed_point n = a :: l ∧ is_digit a = true.
Proof.
  unfold fixed_point.
  destruct (padded_digits n) as [Hlen Hdigits]. simpl in Hlen, Hdigits.
  set (m := replicate (3 - length (digits n))%nat "0"%char ++ digits n) in *.
  set (k := length m) in *.
  assert (Htake : length (take (k - 2) m) = (k - 2)%nat).
  { rewrite length_take. lia. }
  split.
  - assert (Hsplit : take (k - 2) m ++ "."%char :: drop (k - 2) m
                     = (take (k - 2) m ++ ["."%char]) ++ drop (k - 2) m).
    { by rewrite <- app_assoc. }
    assert (Hlast : drop (S (k - 2)) (take (k - 2) m ++ "."%char :: drop (k - 2) m)
                    = drop (k - 2) m).
    { rewrite Hsplit. apply drop_app_length'.
      rewrite length_app, Htake. simpl. lia. }
    unfold two_decimals_unsigned.
    rewrite length_app, Htake. cbn [length]. rewrite length_drop. fold k.
    replace (k - 2 + S (k - (k - 2)) - 3)%nat with (k - 2)%nat by lia.
    replace (k - 2 + S (k - (k - 2)) - 2)%nat with (S (k - 2))%nat by lia.
    rewrite take_app_length' by done.
    rewrite list_lookup_middle by done.
    rewrite Hlast.
    repeat (apply andb_true_iff; split).
    + apply Nat.leb_le. lia.
    + apply forallb_Forall. by apply Forall_take.
    + by apply bool_decide_eq_true_2.
    + apply forallb_Forall. by apply Forall_drop.
  - destruct m as [|a m'] eqn:Hm; [unfold k in Hlen; simpl in Hlen; lia|].
    exists a. eexists. split.
    + replace (k - 2)%nat with (S (k - 3)) by lia. simpl. reflexivity.
    + by inversion Hdigits.
Qed.

Lemma list_ascii_of_string_app (s1 s2 : string) :
  list_ascii_of_string (s1 +:+ s2)
  = list_ascii_of_string s1 ++ list_ascii_of_string s2.
Proof. induction s1 as [|a s1 IH]; simpl; [done|]. by rewrite IH. Qed.

Lemma toFixed2_two_decimals (toString_large : positive → Z → string)
    (x : number) :
  fixed_range x = true → two_decimals (toFixed2 toString_large x) = true.
Proof.
  destruct x as [s|s| |s m e]; simpl; try done.
  intros Hrange. apply negb_true_iff in Hrange. rewrite Hrange.
  destruct (fixed_point_two_decimals (hundredths m e))
    as (Hshape & a & l & Hl & Ha).
  unfold two_decimals. rewrite list_ascii_of_string_app.
  rewrite list_ascii_of_string_of_list_ascii.
  destruct s; simpl.
  - exact Hshape.
  - rewrite Hl in *.
    destruct (Ascii.eqb a "-") eqn:Hminus; [|exact Hshape].
    apply Ascii.eqb_eq in Hminus. subst a. discriminate.
Qed.

(** ** Field names *)

Lemma list_ascii_length (s : string) :
  length (list_ascii_of_string s) = String.length s.
Proof. induction s as [|a s IH]; simpl; [done|]. by rewrite IH. Qed.

(** A string that ends in [suffix] is no inherited name when none of them
    ends in [suffix]. *)
Lemma not_inherited_suffix (prefix suffix : string) :
  Forall (λ name,
            drop (String.length name - String.length suffix)
                 (list_ascii_of_string name)
            ≠ list_ascii_of_string suffix) inherited_names →
  existsb (String.eqb (prefix +:+ suffix)) inherited_names = false.
Proof.
  intros Hnames.
  destruct (existsb (String.eqb (prefix +:+ suffix)) inherited_names) eqn:Hsome;
    [|done].
  apply existsb_exists in Hsome as (name & Hin & Heq).
  apply String.eqb_eq in Heq. apply list_elem_of_In in Hin.
  rewrite Forall_forall in Hnames. destruct (Hnames name Hin).
  rewrite <- Heq, list_ascii_of_string_app.
  apply drop_app_length'.
  rewrite <- !list_ascii_length, list_ascii_of_string_app, length_app.
  lia.
Qed.

Lemma field_name_suffixed (currency suffix : string) :
  field_name currency = true →
  suffix = "_market_cap" ∨ suffix = "_24h_vol" ∨ suffix = "_24h_change" →
  field_name (currency +:+ suffix) = true.
Proof.
  intros Hfield Hsuffix. unfold field_name in *.
  apply andb_true_iff in Hfield as [Hword _].
  apply andb_true_iff. split.
  - rewrite list_ascii_of_string_app, forallb_app, Hword.
    by destruct Hsuffix as [-> | [-> | ->]].
  - apply negb_true_iff, not_inherited_suffix.
    destruct Hsuffix as [-> | [-> | ->]];
      repeat (constructor; [by vm_compute|]); constructor.
Qed.

(** ** The statistics action *)

Section Statistics.

Variable toString_large : positive → Z → string.
Variable StringToNumber : string → number.

Abbreviation statistics_of := (setMarketData toString_large StringToNumber).

Lemma get_or_absent (data : payload) (path : string) (d : value) :
  data !! path = None → get_or data path d = d.
Proof. intros Hnone. unfold get_or, get. by rewrite Hnone. Qed.

Lemma get_or_present (data : payload) (path : string) (d v : value) :
  data !! path = Some v → v ≠ Undefined → get_or data path d = v.
Proof.
  intros Hsome Hdef. unfold get_or, get. rewrite Hsome. simpl.
  by destruct v.
Qed.

Lemma change24h_rounded (currency : string) (data : payload) :
  change24h (statistics_of currency data)
  = toFixed2 toString_large (rounded_change StringToNumber currency data).
Proof. reflexivity. Qed.

(** C10, as amended.  For a currency that is a field name, the four paths
    that [setMarketData] reads are field names, and it returns a
    [SET_STATISTICS] action; [price] is 0 when the currency field is absent
    or falsy and the field otherwise; [mcap] and [volume] are 0 when their
    field is absent and the rounded field otherwise; [change24h] is
    ["0.00"] when its field is absent, has exactly two decimal digits
    whenever the rounded change is finite and below [10^21] in magnitude,
    and is ["NaN"] when the rounded change is not a number. *)
Theorem setMarketData_action (currency : string) (data : payload) :
  field_name currency = true →
  (field_name (currency +:+ "_market_cap") = true
   ∧ field_name (currency +:+ "_24h_vol") = true
   ∧ field_name (currency +:+ "_24h_change") = true)
  ∧ type (statistics_of currency data) = SET_STATISTICS
  ∧ (data !! currency = None → price (statistics_of currency data) = Number (of_Z 0))
  ∧ (truthy (get data currency) = false →
     price (statistics_of currency data) = Number (of_Z 0))
  ∧ (truthy (get data currency) = true →
     price (statistics_of currency data) = get data currency)
  ∧ (data !! (currency +:+ "_market_cap") = None →
     mcap (statistics_of currency data) = of_Z 0)
  ∧ (∀ v, data !! (currency +:+ "_market_cap") = Some v → v ≠ Undefined →
     mcap (statistics_of currency data) = Math_round (ToNumber StringToNumber v))
  ∧ (data !! (currency +:+ "_24h_vol") = None →
     volume (statistics_of currency data) = of_Z 0)
  ∧ (∀ v, data !! (currency +:+ "_24h_vol") = Some v → v ≠ Undefined →
     volume (statistics_of currency data) = Math_round (ToNumber StringToNumber v))
  ∧ (data !! (currency +:+ "_24h_change") = None →
     change24h (statistics_of currency data) = "0.00")
  ∧ (fixed_range (rounded_change StringToNumber currency data) = true →
     two_decimals (change24h (statistics_of currency data)) = true)
  ∧ (rounded_change StringToNumber currency data = NaN →
     change24h (statistics_of currency data) = "NaN").
Proof.
  intros Hfield. split.
  { split; [|split]; (apply field_name_suffixed; [exact Hfield|auto]). }
  repeat split.
  - intros Hnone. unfold setMarketData, js_or, get. simpl. by rewrite Hnone.
  - intros Hfalsy. unfold setMarketData, js_or. simpl. by rewrite Hfalsy.
  - intros Htruthy. unfold setMarketData, js_or. simpl. by rewrite Htruthy.
  - intros Hnone. unfold setMarketData. simpl. by rewrite get_or_absent.
  - intros v Hsome Hdef. unfold setMarketData. simpl.
    by rewrite (get_or_present _ _ _ v).
  - intros Hnone. unfold setMarketData. simpl. by rewrite get_or_absent.
  - intros v Hsome Hdef. unfold setMarketData. simpl.
    by rewrite (get_or_present _ _ _ v).
  - intros Hnone. rewrite change24h_rounded. unfold rounded_change.
    by rewrite get_or_absent.
  - intros Hrange. rewrite change24h_rounded. by apply toFixed2_two_decimals.
  - intros Hnan. rewrite change24h_rounded, Hnan. reflexivity.
Qed.

End Statistics.

Lemma setMarketData_action_witness :
  field_name "usd" = true
  ∧ type (setMarketData sample_toString_large sample_StringToNumber
            "usd" sample_quote) = SET_STATISTICS
  ∧ two_decimals (change24h (setMarketData sample_toString_large
                               sample_StringToNumber "usd" sample_quote))
    = true.
Proof.
  split; [reflexivity|].
  pose proof (setMarketData_action sample_toString_large sample_StringToNumber
                "usd" sample_quote eq_refl)
    as (_ & Htype & _ & _ & _ & _ & _ & _ & _ & _ & Hdecimals & _).
  split; [exact Htype|]. apply Hdecimals. reflexivity.
Defined.

(** C10, as stated, fails: a payload whose change field is not a number
    gives a [change24h] without decimal digits. *)
Lemma change24h_of_NaN_has_no_decimals :
  change24h (setMarketData sample_toString_large sample_StringToNumber
               "usd" sample_broken_quote) = "NaN"
  ∧ two_decimals (change24h (setMarketData sample_toString_large
                               sample_StringToNumber "usd" sample_broken_quote))
    = false
  ∧ ¬ (∀ toString_large StringToNumber currency data,
         two_decimals (change24h (setMarketData toString_large StringToNumber
                                    currency data)) = true).
Proof.
  split; [by vm_compute|]. split; [by vm_compute|].
  intros Hall.
  specialize (Hall sample_toString_large sample_StringToNumber
                "usd" sample_broken_quote).
  vm_compute in Hall. discriminate.
Qed.

(** ** Sample runs *)

Example setMarketData_sample :
  setMarketData sample_toString_large sample_StringToNumber "usd" sample_quote
  = {| type := "IOTA/MARKET_DATA/SET_STATISTICS";
       price := Number (divided_by (of_Z 27) (of_Z 100));
       mcap := of_Z 750;
       volume := of_Z 0;
       change24h := "-1.24" |}.
Proof. by vm_compute. Qed.

Example Math_round_samples :
  Math_round (divided_by (of_Z 5) (of_Z 2)) = of_Z 3
  ∧ Math_round (divided_by (of_Z (-5)) (of_Z 2)) = of_Z (-2)
  ∧ Math_round (divided_by (of_Z (-1)) (of_Z 2)) = S754_zero true
  ∧ Math_round (divided_by (of_Z 1) (of_Z 3)) = S754_zero false.
Proof. by vm_compute. Qed.

Example toFixed2_samples :
  toFixed2 sample_toString_large (divided_by (of_Z 1005) (of_Z 1000)) = "1.00"
  ∧ toFixed2 sample_toString_large (divided_by (of_Z 2) (of_Z 3)) = "0.67"
  ∧ toFixed2 sample_toString_large (divided_by (of_Z (-1)) (of_Z 1000)) = "-0.00"
  ∧ toFixed2 sample_toString_large (of_Z 123456) = "123456.00".
Proof. by vm_compute. Qed.

(** ** What the chart-data thunk requests and keeps *)

Section Charts.

Variables (State Prices ChartData : Type).
Variable settings : State → option string.
Variable toLowerCase : string → string.
Variable fetchMarketChart : string → option Z → string → completion (option Prices).
Variable formatChartData : Prices → completion ChartData.

Abbreviation chart_thunk :=
  (getChartData settings toLowerCase fetchMarketChart formatChartData).

Abbreviation fetched currency tf :=
  (snd (fetchChartData (ChartData := ChartData) fetchMarketChart currency tf)).

(** The fold of [getChartData] over the order of arrival. *)
Abbreviation settle_all currency :=
  (foldl (λ (so_far : list (effect ChartData) * gmap string ChartData) tf,
            let '(more, chart) :=
              settle formatChartData tf (fetched currency tf) (snd so_far) in
            (fst so_far ++ more, chart))).

Lemma settle_all_snoc (currency : string) (arrival : list string) (tf : string)
    (start : list (effect ChartData) * gmap string ChartData) :
  settle_all currency start (arrival ++ [tf])
  = (fst (settle_all currency start arrival)
       ++ fst (settle formatChartData tf (fetched currency tf)
                 (snd (settle_all currency start arrival))),
     snd (settle formatChartData tf (fetched currency tf)
            (snd (settle_all currency start arrival)))).
Proof.
  rewrite foldl_app. cbn [foldl].
  by destruct (settle formatChartData tf _ _).
Qed.

(** On the timeframes of the module, the days asked of the price API are
    1 for ['24h'] and for ['1h'], which is fetched as the ['24h'] series, 7
    for ['7d'] and 30 for ['1m']; the coin is always ['iota'].  The promise
    is fulfilled with the [prices] of the response, and rejects when the
    request does or when there is no response to read. *)
Theorem fetchChartData_request (currency timeframe : string) :
  timeframe ∈ timeframes →
  ∃ days, fst (fetchChartData (ChartData := ChartData)
                 fetchMarketChart currency timeframe)
          = FetchMarketChart "iota" (Some days) currency
    ∧ (timeframe = "24h" ∨ timeframe = "1h" → days = 1)
    ∧ (timeframe = "7d" → days = 7)
    ∧ (timeframe = "1m" → days = 30)
    ∧ (∀ prices, fetched currency timeframe = Returns prices ↔
         fetchMarketChart timeframe (Some days) currency = Returns (Some prices))
    ∧ (fetchMarketChart timeframe (Some days) currency = Returns None →
       fetched currency timeframe = Throws "TypeError")
    ∧ (∀ err, fetchMarketChart timeframe (Some days) currency = Throws err →
       fetched currency timeframe = Throws err).
Proof.
  intros Hknown. unfold timeframes in Hknown.
  rewrite !elem_of_cons in Hknown.
  assert (Hsettles : ∀ days,
    (∀ prices,
       match fetchMarketChart timeframe (Some days) currency with
       | Returns (Some prices0) => Returns prices0
       | Returns None => Throws "TypeError"
       | Throws err => Throws err
       end = Returns prices ↔
       fetchMarketChart timeframe (Some days) currency = Returns (Some prices))
    ∧ (fetchMarketChart timeframe (Some days) currency = Returns None →
       match fetchMarketChart timeframe (Some days) currency with
       | Returns (Some prices0) => Returns prices0
       | Returns None => Throws "TypeError"
       | Throws err => Throws err
       end = Throws "TypeError")
    ∧ (∀ err, fetchMarketChart timeframe (Some days) currency = Throws err →
       match fetchMarketChart timeframe (Some days) currency with
       | Returns (Some prices0) => Returns prices0
       | Returns None => Throws "TypeError"
       | Throws err0 => Throws err0
       end = Throws err)).
  { intros days.
    destruct (fetchMarketChart timeframe (Some days) currency) as [[found|]|err0].
    - split; [|split]; [intros prices; split; congruence|done|done].
    - split; [|split]; [intros prices; split; congruence|done|done].
    - split; [|split]; [intros prices; split; congruence|done|].
      by intros err [= <-]. }
  unfold fetchChartData. cbn [fst snd].
  destruct Hknown as [-> | [-> | [-> | [-> | Hnone]]]];
    [exists 1|exists 7|exists 30|exists 1|by apply elem_of_nil in Hnone];
    (split; [reflexivity|]);
    (split; [by intros [? | ?]|]);
    (split; [by intros ?|]);
    (split; [by intros ?|]);
    apply Hsettles.
Qed.

Lemma settle_all_only_logs (currency : string) (arrival : list string)
    (start : list (effect ChartData) * gmap string ChartData) :
  Forall (λ e, ∃ error, e = ConsoleLog error) (fst start) →
  Forall (λ e, ∃ error, e = ConsoleLog error)
         (fst (settle_all currency start arrival)).
Proof.
  revert start. induction arrival as [|tf arrival IH]; intros start Hstart;
    [done|].
  cbn [foldl]. apply IH.
  unfold settle.
  destruct (fetched currency tf) as [data|error]; simpl.
  - destruct (formatChartData data) as [formatted|error]; simpl.
    + by rewrite app_nil_r.
    + apply Forall_app. split; [done|]. repeat constructor. by eexists.
  - apply Forall_app. split; [done|]. repeat constructor. by eexists.
Qed.

Lemma chart_requests_logs (calls : list (effect ChartData)) :
  Forall (λ e, ∃ error, e = ConsoleLog error) calls → chart_requests calls = [].
Proof. induction 1 as [|e calls [error ->] _ IH]; [done|]. exact IH. Qed.

(** On a store whose [settings] is a string, the thunk of [getChartData]
    sends exactly four requests, for 1, 7, 30 and 1 days of the coin
    ['iota'] in the lower-cased currency, whatever comes back; on any other
    store it throws before any request leaves. *)
Theorem getChartData_requests (arrival : list string) (st : State) :
  (∀ s, settings st = Some s →
     chart_requests (trace (chart_thunk arrival st))
     = [("iota", Some 1, toLowerCase s); ("iota", Some 7, toLowerCase s);
        ("iota", Some 30, toLowerCase s); ("iota", Some 1, toLowerCase s)]
     ∧ result (chart_thunk arrival st) = Returns ())
  ∧ (settings st = None →
     trace (chart_thunk arrival st) = []
     ∧ result (chart_thunk arrival st) = Throws "TypeError").
Proof.
  unfold getChartData. split.
  - intros s ->. cbn [trace result]. split; [|done].
    unfold chart_requests. rewrite omap_app.
    fold (chart_requests (fst (settle_all (toLowerCase s) ([], ∅) arrival))).
    rewrite chart_requests_logs by (by apply settle_all_only_logs).
    reflexivity.
  - intros ->. done.
Qed.

(** The local [chartData] object of the thunk, once the chains listed in
    [arrival] have settled (each at most once): it holds, under a
    timeframe, exactly the formatted series of a chain that was fetched and
    formatted without an exception, and every other chain has logged one
    error. *)
Theorem getChartData_keeps (arrival : list string) (st : State) (s : string) :
  settings st = Some s →
  NoDup arrival →
  (∀ tf formatted,
     chartData (chart_thunk arrival st) !! tf = Some formatted ↔
     tf ∈ arrival
     ∧ ∃ prices, fetched (toLowerCase s) tf = Returns prices
                 ∧ formatChartData prices = Returns formatted)
  ∧ (size (chartData (chart_thunk arrival st))
     + length (logs (trace (chart_thunk arrival st))) = length arrival)%nat.
Proof.
  intros Hs Hnodup. unfold getChartData. rewrite Hs. cbn [chartData trace].
  set (currency := toLowerCase s).
  assert (Hlogs : ∀ calls more : list (effect ChartData),
            logs (calls ++ more) = logs calls ++ logs more)
    by (intros; apply omap_app).
  rewrite Hlogs. change (logs _ ++ ?l) with l.
  induction arrival as [|tf arrival IH] using rev_ind.
  { split; [|done]. intros tf formatted. cbn [foldl snd]. rewrite lookup_empty.
    split; [done|]. intros [Hin _]. by apply elem_of_nil in Hin. }
  apply NoDup_app in Hnodup as (Hnodup & Hfresh & _).
  destruct (IH Hnodup) as [IHkeeps IHcount]. clear IH.
  assert (Hnew : tf ∉ arrival).
  { intros Hin. apply (Hfresh tf Hin). by apply list_elem_of_singleton. }
  assert (Hunset : snd (settle_all currency ([], ∅) arrival) !! tf = None).
  { destruct (snd (settle_all currency ([], ∅) arrival) !! tf) as [d|] eqn:Hd;
      [|done].
    apply IHkeeps in Hd as [Hin _]. done. }
  rewrite settle_all_snoc. cbn [fst snd]. rewrite Hlogs, !length_app.
  set (acc := settle_all currency ([], ∅) arrival) in *. clearbody acc.
  unfold settle.
  destruct (fetched currency tf) as [data|error] eqn:Hfetched.
  - destruct (formatChartData data) as [formatted'|error] eqn:Hformat;
      cbn [fst snd].
    + split.
      * intros tf' formatted. rewrite elem_of_app, list_elem_of_singleton.
        destruct (decide (tf' = tf)) as [->|Hne].
        -- rewrite lookup_insert_eq. split.
           ++ intros [= ->]. split; [by right|]. by exists data.
           ++ intros (_ & prices & Hprices & Hok). congruence.
        -- rewrite lookup_insert_ne by done. rewrite IHkeeps. split.
           ++ intros (Hin & Hstored). split; [by left|done].
           ++ intros ([Hin|Heq] & Hstored); [done|congruence].
      * rewrite map_size_insert_None by done. simpl. lia.
    + split.
      * intros tf' formatted. rewrite elem_of_app, list_elem_of_singleton.
        rewrite IHkeeps. split.
        -- intros (Hin & Hstored). split; [by left|done].
        -- intros ([Hin | ->] & prices & Hprices & Hok); [by split; eauto|].
           congruence.
      * simpl. lia.
  - cbn [fst snd]. split.
    + intros tf' formatted. rewrite elem_of_app, list_elem_of_singleton.
      rewrite IHkeeps. split.
      * intros (Hin & Hstored). split; [by left|done].
      * intros ([Hin | ->] & prices & Hprices & Hok); [by split; eauto|].
        congruence.
    + simpl. lia.
Qed.

End Charts.

(** ** The price thunks *)

Section Prices.

Variables (State Prices ChartData : Type).
Variable toString_large : positive → Z → string.
Variable StringToNumber : string → number.
Variable reducer : State → message ChartData → State.
Variable settings : State → option string.
Variable toLowerCase : string → string.
Variable simple_price : string → string → completion (option quotes).
Variable fetchMarketChart : string → option Z → string → completion (option Prices).
Variable formatChartData : Prices → completion ChartData.

Abbreviation price_thunk :=
  (getPrice (ChartData := ChartData) settings toLowerCase simple_price).

Abbreviation market_thunk :=
  (getMarketData (ChartData := ChartData) toString_large StringToNumber
     settings toLowerCase simple_price).

Abbreviation change_thunk :=
  (change reducer settings toLowerCase simple_price fetchMarketChart
     formatChartData).

Lemma messages_app (calls more : list (call ChartData)) :
  messages (calls ++ more) = messages calls ++ messages more.
Proof. apply omap_app. Qed.

Lemma messages_chart (calls : list (effect ChartData)) :
  messages (Chart <$> calls) = [].
Proof. induction calls as [|e calls IH]; [done|]. exact IH. Qed.

Lemma price_requests_app (calls more : list (call ChartData)) :
  price_requests (calls ++ more) = price_requests calls ++ price_requests more.
Proof. apply omap_app. Qed.

Lemma store_of_messages (st : State) (calls : list (call ChartData)) :
  store_of reducer st calls = foldl reducer st (messages calls).
Proof.
  revert st. induction calls as [|c calls IH]; intros st; [done|].
  destruct c as [m|ids currency cap vol change|e]; simpl; apply IH.
Qed.

(** The thunk of [getPrice] sends one request, for the coin ['iota'] in
    the lower-cased currency and without the market options, and
    dispatches nothing before it returns; later it dispatches
    [setPrice(price)] exactly when the request is fulfilled, and nothing
    when it is rejected.  On a store whose [settings] is not a string it
    throws and does nothing. *)
Theorem getPrice_dispatches (st : State) :
  messages (sent (price_thunk st)) = []
  ∧ (∀ m, m ∈ messages (later (price_thunk st)) ↔
       ∃ s price, settings st = Some s
                  ∧ simple_price "getPrice" (toLowerCase s) = Returns price
                  ∧ m = setPrice price)
  ∧ (length (messages (later (price_thunk st))) ≤ 1)%nat
  ∧ (∀ s, settings st = Some s →
       price_requests (sent (price_thunk st) ++ later (price_thunk st))
       = [("iota", toLowerCase s, (false, false, false))])
  ∧ (∀ s err, settings st = Some s →
       simple_price "getPrice" (toLowerCase s) = Throws err →
       ended (price_thunk st) = Rejected err)
  ∧ (settings st = None →
     sent (price_thunk st) ++ later (price_thunk st) = []
     ∧ ended (price_thunk st) = Thrown "TypeError").
Proof.
  unfold getPrice. destruct (settings st) as [s|] eqn:Hs.
  - destruct (simple_price "getPrice" (toLowerCase s)) as [price|err0]
      eqn:Hprice; cbn [sent later ended].
    + split; [done|]. split; [|split; [simpl; lia|split; [|split; [|done]]]].
      * intros m.
        change (messages [Send (setPrice price)])
          with [setPrice (ChartData := ChartData) price].
        rewrite list_elem_of_singleton. split.
        -- intros ->. by exists s, price.
        -- intros (s' & price' & Hs' & Hprice' & ->).
           injection Hs' as <-. congruence.
      * by intros s' [= <-].
      * intros s' err Hs' Herr. injection Hs' as <-. congruence.
    + split; [done|]. split; [|split; [simpl; lia|split; [|split; [|done]]]].
      * intros m. split; [intros Hin; by apply elem_of_nil in Hin|].
        intros (s' & price' & Hs' & Hprice' & _).
        injection Hs' as <-. congruence.
      * by intros s' [= <-].
      * intros s' err Hs' Herr. injection Hs' as <-. congruence.
  - cbn [sent later ended].
    split; [done|]. split; [|split; [simpl; lia|split; [done|split; [done|done]]]].
    intros m. split; [intros Hin; by apply elem_of_nil in Hin|].
    intros (s' & price' & ? & _). discriminate.
Qed.


Lemma change_messages (first : message ChartData) (arrival : list string)
    (turn : nat) (st : State) :
  messages (sent (change_thunk first arrival turn st)
              ++ later (change_thunk first arrival turn st))
  = first :: messages (later (price_thunk (reducer st first))).
Proof.
  unfold change.
  pose proof (getPrice_dispatches (reducer st first)) as (Hsent & _).
  destruct (ended (price_thunk (reducer st first))) eqn:Hended;
    cbn [sent later].
  - rewrite !messages_app. cbn [messages omap]. simpl.
    rewrite !messages_app, !messages_chart, Hsent. simpl.
    by rewrite app_nil_r.
  - rewrite !messages_app. cbn [messages omap]. simpl.
    rewrite !messages_app, !messages_chart, Hsent. simpl.
    by rewrite app_nil_r.
  - unfold getPrice in *.
    destruct (settings (reducer st first)) as [s|]; [|done].
    by destruct (simple_price "getPrice" (toLowerCase s)).
Qed.

(** [changeCurrency] and [changeTimeframe] chain a plain action, the thunk
    of [getPrice] and the thunk of [getChartData].  The store receives the
    plain action first and then at most the price action, whatever the
    order in which the requests settle: it ends where the price thunk, run
    on the store that has handled the plain action, leaves it, and no chart
    data reaches it.  If that store has no [settings] string, the chain
    throws after the plain action and no request is sent. *)
Theorem change_store (first : message ChartData) (arrival : list string)
    (turn : nat) (st : State) :
  (∃ rest,
     messages (sent (change_thunk first arrival turn st)
                 ++ later (change_thunk first arrival turn st)) = first :: rest
     ∧ (length rest ≤ 1)%nat
     ∧ Forall (λ m, message_type m = SET_PRICE) rest)
  ∧ store_of reducer st (sent (change_thunk first arrival turn st)
                           ++ later (change_thunk first arrival turn st))
    = store_of reducer (reducer st first)
        (later (price_thunk (reducer st first)))
  ∧ (settings (reducer st first) = None →
     sent (change_thunk first arrival turn st) = [Send first]
     ∧ later (change_thunk first arrival turn st) = []
     ∧ ended (change_thunk first arrival turn st) = Thrown "TypeError").
Proof.
  split; [|split].
  - exists (messages (later (price_thunk (reducer st first)))).
    split; [apply change_messages|].
    destruct (getPrice_dispatches (reducer st first))
      as (_ & Hiff & Hone & _).
    split; [exact Hone|].
    apply Forall_forall. intros m Hm.
    apply Hiff in Hm as (s & price & _ & _ & ->). reflexivity.
  - by rewrite !store_of_messages, change_messages.
  - intros Hnone. unfold change, getPrice. rewrite Hnone. done.
Qed.

(** [changeCurrency(currency, timeframe)] sends [SET_CURRENCY] with the
    currency and never [SET_TIMEFRAME]; [changeTimeframe(currency,
    timeframe)] sends [SET_TIMEFRAME] with the timeframe and never
    [SET_CURRENCY].  With a [settings] string in the store that has handled
    the action, each sends the price request and the four chart requests
    before it returns. *)
Theorem change_requests (currency timeframe : string) (arrival : list string)
    (turn : nat) (st : State) :
  let byCurrency :=
    changeCurrency reducer settings toLowerCase simple_price fetchMarketChart
      formatChartData currency timeframe arrival turn st in
  let byTimeframe :=
    changeTimeframe reducer settings toLowerCase simple_price fetchMarketChart
      formatChartData currency timeframe arrival turn st in
  head (messages (sent byCurrency)) = Some (setCurrency currency)
  ∧ head (messages (sent byTimeframe)) = Some (setTimeframe timeframe)
  ∧ Forall (λ m, message_type m ≠ SET_TIMEFRAME)
           (messages (sent byCurrency ++ later byCurrency))
  ∧ Forall (λ m, message_type m ≠ SET_CURRENCY)
           (messages (sent byTimeframe ++ later byTimeframe))
  ∧ (∀ s, settings (reducer st (setCurrency currency)) = Some s →
       price_requests (sent byCurrency)
       = [("iota", toLowerCase s, (false, false, false))]
       ∧ chart_requests (chart_calls (sent byCurrency))
         = [("iota", Some 1, toLowerCase s); ("iota", Some 7, toLowerCase s);
            ("iota", Some 30, toLowerCase s); ("iota", Some 1, toLowerCase s)]).
Proof.
  intros byCurrency byTimeframe.
  assert (Hhead : ∀ first,
            head (messages (sent (change_thunk first arrival turn st)))
            = Some first).
  { intros first. unfold change.
    by destruct (ended (price_thunk (reducer st first))). }
  assert (Htypes : ∀ first kind,
            message_type first ≠ kind → SET_PRICE ≠ kind →
            Forall (λ m, message_type m ≠ kind)
              (messages (sent (change_thunk first arrival turn st)
                           ++ later (change_thunk first arrival turn st)))).
  { intros first kind Hfirst Hprice.
    destruct (change_store first arrival turn st)
      as ((rest & -> & _ & Hrest) & _).
    constructor; [done|].
    eapply Forall_impl; [exact Hrest|]. intros m Hm. simpl in *. congruence. }
  split; [apply Hhead|]. split; [apply Hhead|].
  split; [by apply Htypes|]. split; [by apply Htypes|].
  intros s Hs. subst byCurrency. unfold changeCurrency, change, getPrice.
  rewrite Hs.
  unfold getChartData. rewrite Hs. cbn [trace].
  rewrite take_app_length' by reflexivity.
  destruct (simple_price "getPrice" (toLowerCase s)) as [price|err];
    cbn [ended sent]; split; reflexivity.
Qed.

End Prices.

Lemma hour_is_a_timeframe : "1h" ∈ timeframes.
Proof. apply (bool_decide_unpack _). by vm_compute. Qed.

Lemma fetchChartData_request_witness :
  "1h" ∈ timeframes
  ∧ fst (fetchChartData (ChartData := nat) sample_fetchMarketChart "usd" "1h")
    = FetchMarketChart "iota" (Some 1) "usd".
Proof.
  split; [exact hour_is_a_timeframe|].
  destruct (fetchChartData_request (list Z) nat sample_fetchMarketChart
              "usd" "1h" hour_is_a_timeframe) as (days & Hrequest & Hday & _).
  rewrite Hrequest. by rewrite (Hday (or_intror eq_refl)).
Defined.

Example field_name_samples :
  field_name "usd" = true ∧ field_name "" = true
  ∧ field_name "usd.length" = false ∧ field_name "[usd]" = false
  ∧ field_name "constructor" = false ∧ field_name "toString" = false
  ∧ field_name "__proto__" = false.
Proof. by vm_compute. Qed.

Lemma sample_arrival_NoDup : NoDup ["1m"; "24h"; "1h"; "7d"].
Proof. apply (bool_decide_unpack _). by vm_compute. Qed.

Lemma getChartData_keeps_witness :
  NoDup ["1m"; "24h"; "1h"; "7d"]
  ∧ (size (chartData (getChartData sample_settings sample_toLowerCase
                        sample_fetchMarketChart sample_formatChartData
                        ["1m"; "24h"; "1h"; "7d"] "usd"))
     + length (logs (trace (getChartData sample_settings sample_toLowerCase
                              sample_fetchMarketChart sample_formatChartData
                              ["1m"; "24h"; "1h"; "7d"] "usd"))) = 4)%nat.
Proof.
  split; [exact sample_arrival_NoDup|].
  exact (proj2 (getChartData_keeps string (list Z) nat sample_settings
                  sample_toLowerCase sample_fetchMarketChart
                  sample_formatChartData ["1m"; "24h"; "1h"; "7d"] "usd" "usd"
                  eq_refl sample_arrival_NoDup)).
Defined.


(** A run of [changeCurrency] on the samples: the store is asked for the
    currency and then for the price; the ['7d'] chain logs its error. *)
Example changeCurrency_sample :
  let run := changeCurrency (λ st _, st) sample_settings sample_toLowerCase
               sample_simple_price sample_fetchMarketChart
               sample_formatChartData "usd" "7d" ["1m"; "24h"; "1h"; "7d"]
               2 "usd" in
  messages (sent run ++ later run)
  = [setCurrency "usd"; setPrice (Some {| iota := Some sample_quote |})]
  ∧ logs (chart_calls (later run)) = ["timeout"]
  ∧ ended run = Fulfilled.
Proof. by vm_compute. Qed.

End MarketDataFacts.
